(** * OfficeGPT tax engine: a shallow embedding of the tax-planning routes

  The deterministic part of the server is embedded here: the
  progressive bracket walk, the CPP / EI contribution formulas, the
  non-eligible dividend tax, the salary / dividend comparator and the
  investment comparator together with the ranking done by the
  [/api/calculate-investment] handler.  Of the expense route and of the
  chat routes and service, the parts that compute are embedded as well:
  the home-office percentage, the conversation title, the history window
  and the mapping of errors to responses.

  Numbers.  A JavaScript [number] is modelled as an extended rational:
  a finite value carries an exact [Q], and the three non-finite values
  ([Infinity], [-Infinity], [NaN]) are kept because the source writes
  [Infinity] in the bracket table and divides without a guard.  The
  rounding error and the overflow of binary64 arithmetic, and the sign
  of zero, are outside the model: every statement below is about the
  exact value of the formulas the code evaluates. *)

From Stdlib Require Import QArith Qminmax Qround Qabs Qpower Lqa Lia ZArith Bool.
From Stdlib Require Import List String Ascii Sorted Permutation.
Import ListNotations.

Open Scope Q_scope.

(** ** JavaScript numbers *)

Inductive number : Type :=
| Fin (q : Q)
| PInf
| NInf
| NaN.

Coercion Fin : Q >-> number.

Declare Scope number_scope.
Delimit Scope number_scope with num.
Bind Scope number_scope with number.

Module Number.

Definition neg (x : number) : number :=
  match x with
  | Fin a => Fin (- a)
  | PInf => NInf
  | NInf => PInf
  | NaN => NaN
  end.

Definition add (x y : number) : number :=
  match x, y with
  | NaN, _ | _, NaN => NaN
  | Fin a, Fin b => Fin (a + b)
  | PInf, NInf | NInf, PInf => NaN
  | PInf, _ | _, PInf => PInf
  | NInf, _ | _, NInf => NInf
  end.

Definition sub (x y : number) : number := add x (neg y).

(** The infinity with the sign of [a], or [NaN] for [a = 0]. *)
Definition signed_inf (a : Q) (positive : bool) : number :=
  match a ?= 0 with
  | Gt => if positive then PInf else NInf
  | Lt => if positive then NInf else PInf
  | Eq => NaN
  end.

Definition mul (x y : number) : number :=
  match x, y with
  | NaN, _ | _, NaN => NaN
  | Fin a, Fin b => Fin (a * b)
  | Fin a, PInf | PInf, Fin a => signed_inf a true
  | Fin a, NInf | NInf, Fin a => signed_inf a false
  | PInf, PInf | NInf, NInf => PInf
  | PInf, NInf | NInf, PInf => NInf
  end.

(** [x / y].  A finite value divided by zero is an infinity, [0 / 0] is
    [NaN]; the divisor zero counts as [+0]. *)
Definition div (x y : number) : number :=
  match x, y with
  | NaN, _ | _, NaN => NaN
  | Fin a, Fin b =>
      match b ?= 0 with
      | Eq => signed_inf a true
      | _ => Fin (a / b)
      end
  | Fin _, (PInf | NInf) => Fin 0
  | PInf, Fin b => match b ?= 0 with Lt => NInf | _ => PInf end
  | NInf, Fin b => match b ?= 0 with Lt => PInf | _ => NInf end
  | _, _ => NaN
  end.

(** [x <= y]; every comparison with [NaN] is false. *)
Definition leb (x y : number) : bool :=
  match x, y with
  | NaN, _ | _, NaN => false
  | Fin a, Fin b => Qle_bool a b
  | NInf, _ | _, PInf => true
  | _, _ => false
  end.

(** [x < y] *)
Definition ltb (x y : number) : bool :=
  match x, y with
  | NaN, _ | _, NaN => false
  | Fin a, Fin b => negb (Qle_bool b a)
  | NInf, (Fin _ | PInf) | Fin _, PInf => true
  | _, _ => false
  end.

(** [x > y] *)
Definition gtb (x y : number) : bool := ltb y x.

Definition isFinite (x : number) : bool :=
  match x with Fin _ => true | _ => false end.

End Number.

Infix "+" := Number.add : number_scope.
Infix "-" := Number.sub : number_scope.
Infix "*" := Number.mul : number_scope.
Infix "/" := Number.div : number_scope.
Infix "<=?" := Number.leb (at level 70) : number_scope.
Infix ">?" := Number.gtb (at level 70) : number_scope.

(** Equality of numbers up to the equality of rationals. *)
Definition numeq (x y : number) : Prop :=
match x, y with
| Fin a, Fin b => a == b
| PInf, PInf | NInf, NInf | NaN, NaN => True
| _, _ => False
end.

Infix "=n=" := numeq (at level 70).

Module Math.

Definition min (x y : number) : number :=
  match x, y with
  | NaN, _ | _, NaN => NaN
  | _, _ => if (x <=? y)%num then x else y
  end.

Definition max (x y : number) : number :=
  match x, y with
  | NaN, _ | _, NaN => NaN
  | _, _ => if (x <=? y)%num then y else x
  end.

(** [Math.round]: the nearest integer, halves going up. *)
Definition round (x : number) : number :=
  match x with
  | Fin a => Fin (inject_Z (Qfloor (a + (1 # 2))))
  | _ => x
  end.

(** [Math.pow(base, exponent)] for a finite base and an exponent that is
    an integer or [NaN] ([None]), which is what [parseInt] hands over. *)
Definition pow (base : Q) (exponent : option Z) : number :=
  match exponent with
  | None => NaN
  | Some n =>
      if Qeq_bool base 0 && (n <? 0)%Z then PInf else Fin (base ^ n)
  end.

End Math.

(** ** 2024 constants ([TAX_RATES]) *)

Record TaxBracket : Type := { min : number; max : number; rate : number }.

Module TAX_RATES.

Definition SMALL_BUSINESS_RATE : number := Fin 0.122.

Definition PERSONAL_BRACKETS : list TaxBracket :=
  [ {| min := Fin 0;      max := Fin 51446;  rate := Fin 0.2005 |};
    {| min := Fin 51447;  max := Fin 55867;  rate := Fin 0.2415 |};
    {| min := Fin 55868;  max := Fin 102894; rate := Fin 0.2965 |};
    {| min := Fin 102895; max := Fin 111733; rate := Fin 0.3166 |};
    {| min := Fin 111734; max := Fin 150000; rate := Fin 0.3716 |};
    {| min := Fin 150001; max := Fin 173205; rate := Fin 0.3816 |};
    {| min := Fin 173206; max := Fin 220000; rate := Fin 0.4116 |};
    {| min := Fin 220001; max := Fin 246752; rate := Fin 0.4216 |};
    {| min := Fin 246753; max := PInf;       rate := Fin 0.4953 |} ].

Module CPP.
Definition YMPE : number := Fin 68500.
Definition BASIC_EXEMPTION : number := Fin 3500.
Definition EMPLOYEE_RATE : number := Fin 0.0595.
Definition YAMPE : number := Fin 73200.
Definition CPP2_RATE : number := Fin 0.04.
End CPP.

Module EI.
Definition MIE : number := Fin 63200.
Definition EMPLOYEE_RATE : number := Fin 0.0166.
Definition EMPLOYER_RATE : number := Fin 0.02324.
End EI.

Module DIVIDEND.
Definition GROSS_UP : number := Fin 0.15.
Definition FEDERAL_DTC : number := Fin 0.090301.
Definition ONTARIO_DTC : number := Fin 0.029863.
End DIVIDEND.

End TAX_RATES.

(** ** Progressive tax ([calculatePersonalTax]) *)

(** The body of the [for ... of] loop, with the two mutable locals [tax]
    and [remainingIncome] passed along; the [break] returns [tax]. *)
Fixpoint bracketLoop (brackets : list TaxBracket) (tax remainingIncome : number)
  : number :=
  match brackets with
  | [] => tax
  | bracket :: rest =>
      if (remainingIncome <=? Fin 0)%num then tax
      else
        let bracketWidth := (max bracket - min bracket + Fin 1)%num in
        let taxableInThisBracket := Math.min remainingIncome bracketWidth in
        bracketLoop rest
          (tax + taxableInThisBracket * rate bracket)%num
          (remainingIncome - taxableInThisBracket)%num
  end.

Definition calculatePersonalTax (taxableIncome : number) : number :=
  bracketLoop TAX_RATES.PERSONAL_BRACKETS (Fin 0) taxableIncome.

(** ** Payroll contributions ([calculateCPPContributions],
    [calculateEIContributions]) *)

Record Contributions : Type := { employee : number; employer : number }.

(** The locals of [calculateCPPContributions], one definition each. *)
Definition contributoryEarnings (salary : number) : number :=
  Math.min (Math.max (salary - TAX_RATES.CPP.BASIC_EXEMPTION) (Fin 0))
           (TAX_RATES.CPP.YMPE - TAX_RATES.CPP.BASIC_EXEMPTION).

Definition cpp1 (salary : number) : number :=
  (contributoryEarnings salary * TAX_RATES.CPP.EMPLOYEE_RATE)%num.

Definition cpp2Earnings (salary : number) : number :=
  Math.min (Math.max (salary - TAX_RATES.CPP.YMPE) (Fin 0))
           (TAX_RATES.CPP.YAMPE - TAX_RATES.CPP.YMPE).

Definition cpp2 (salary : number) : number :=
  (cpp2Earnings salary * TAX_RATES.CPP.CPP2_RATE)%num.

Definition calculateCPPContributions (salary : number) : Contributions :=
  let totalEmployee := (cpp1 salary + cpp2 salary)%num in
  {| employee := totalEmployee; employer := totalEmployee |}.

Definition calculateEIContributions (salary : number) : Contributions :=
  let insurable := Math.min salary TAX_RATES.EI.MIE in
  {| employee := (insurable * TAX_RATES.EI.EMPLOYEE_RATE)%num;
     employer := (insurable * TAX_RATES.EI.EMPLOYER_RATE)%num |}.

(** ** Dividend tax ([calculateDividendTax]) *)

Record DividendTax : Type := { tax : number; grossedUp : number }.

Definition calculateDividendTax (dividend otherIncome : number) : DividendTax :=
  let grossUp := (dividend * TAX_RATES.DIVIDEND.GROSS_UP)%num in
  let grossedUpDividend := (dividend + grossUp)%num in
  let totalTaxableIncome := (otherIncome + grossedUpDividend)%num in
  let grossTax :=
    (calculatePersonalTax totalTaxableIncome - calculatePersonalTax otherIncome)%num in
  let federalDTC := (grossedUpDividend * TAX_RATES.DIVIDEND.FEDERAL_DTC)%num in
  let ontarioDTC := (grossedUpDividend * TAX_RATES.DIVIDEND.ONTARIO_DTC)%num in
  let totalDTC := (federalDTC + ontarioDTC)%num in
  {| tax := Math.max (grossTax - totalDTC) (Fin 0);
     grossedUp := grossedUpDividend |}.

(** ** Strings of numbers

    [toLocaleString] is the en-US rendering the server produces: digits
    grouped by three, at most three fraction digits, halves rounded away
    from zero.  Strings are byte strings; the white space skipped by
    [parseInt] and [parseFloat] is the ASCII white space. *)

Definition isDigit (c : ascii) : bool :=
  ((48 <=? nat_of_ascii c) && (nat_of_ascii c <=? 57))%nat.

Definition digitValue (c : ascii) : Z := Z.of_nat (nat_of_ascii c - 48).

Definition digitChar (d : Z) : ascii := ascii_of_nat (48 + Z.to_nat d).

Fixpoint digitsFrom (fuel : nat) (n : Z) (acc : list ascii) : list ascii :=
  match fuel with
  | O => acc
  | S fuel' =>
      let acc' := digitChar (n mod 10) :: acc in
      if (n <? 10)%Z then acc' else digitsFrom fuel' (n / 10) acc'
  end.

(** The decimal digits of [n >= 0], most significant first. *)
Definition digits (n : Z) : list ascii :=
  digitsFrom (S (Z.to_nat (Z.log2 n))) n [].

(** Separators after every third digit, on the digits least significant
    first. *)
Fixpoint group3 (reversed : list ascii) : list ascii :=
  match reversed with
  | a :: b :: c :: rest =>
      match rest with
      | [] => [a; b; c]
      | _ :: _ => a :: b :: c :: ","%char :: group3 rest
      end
  | _ => reversed
  end.

Definition grouped (n : Z) : list ascii := rev (group3 (rev (digits n))).

(** The fraction part for [f] thousandths, trailing zeros dropped. *)
Definition fractionDigits (f : Z) : list ascii :=
  if (f =? 0)%Z then []
  else
    "."%char :: digitChar (f / 100) ::
      (if (f mod 100 =? 0)%Z then []
       else digitChar ((f / 10) mod 10) ::
              (if (f mod 10 =? 0)%Z then [] else [digitChar (f mod 10)])).

Definition signChars (q : Q) : list ascii :=
  if Qle_bool 0 q then [] else ["-"%char].

Definition toLocaleString (x : number) : string :=
  match x with
  | NaN => "NaN"
  | PInf => "∞"
  | NInf => "-∞"
  | Fin q =>
      let thousandths := Qfloor (Qabs q * 1000 + (1 # 2)) in
      string_of_list_ascii
        (signChars q ++ grouped (thousandths / 1000)
                     ++ fractionDigits (thousandths mod 1000))
  end.

(** [x.toFixed(1)].  From 10^21 on the source switches to the exponent
    form of a binary64 value, which has no counterpart here; the plain
    digits are kept there. *)
Definition toFixed1 (x : number) : string :=
  match x with
  | NaN => "NaN"
  | PInf => "Infinity"
  | NInf => "-Infinity"
  | Fin q =>
      let tenths := Qfloor (Qabs q * 10 + (1 # 2)) in
      string_of_list_ascii
        (signChars q ++ digits (tenths / 10) ++ ["."%char; digitChar (tenths mod 10)])
  end.

Definition isWhiteSpace (c : ascii) : bool :=
  let n := nat_of_ascii c in
  (((9 <=? n) && (n <=? 13)) || (n =? 32))%nat.

Fixpoint trimStart (s : list ascii) : list ascii :=
  match s with
  | c :: rest => if isWhiteSpace c then trimStart rest else s
  | [] => []
  end.

(** A leading sign: [true] for [-]. *)
Definition readSign (s : list ascii) : bool * list ascii :=
  match s with
  | c :: rest =>
      if Ascii.eqb c "-" then (true, rest)
      else if Ascii.eqb c "+" then (false, rest)
      else (false, s)
  | [] => (false, s)
  end.

(** The longest prefix of decimal digits: its value, its length and what
    follows it. *)
Fixpoint readDigits (s : list ascii) (value : Z) (count : nat)
  : Z * nat * list ascii :=
  match s with
  | c :: rest =>
      if isDigit c then readDigits rest (10 * value + digitValue c)%Z (S count)
      else (value, count, s)
  | [] => (value, count, s)
  end.

Definition hexValue (c : ascii) : option Z :=
  let n := nat_of_ascii c in
  if isDigit c then Some (Z.of_nat (n - 48))
  else if ((97 <=? n) && (n <=? 102))%nat then Some (Z.of_nat (n - 87))
  else if ((65 <=? n) && (n <=? 70))%nat then Some (Z.of_nat (n - 55))
  else None.

Fixpoint readHexDigits (s : list ascii) (value : Z) (count : nat)
  : Z * nat * list ascii :=
  match s with
  | c :: rest =>
      match hexValue c with
      | Some d => readHexDigits rest (16 * value + d)%Z (S count)
      | None => (value, count, s)
      end
  | [] => (value, count, s)
  end.

Fixpoint startsWith (prefix s : list ascii) : bool :=
  match prefix, s with
  | [], _ => true
  | p :: prefix', c :: s' => Ascii.eqb p c && startsWith prefix' s'
  | _ :: _, [] => false
  end.

(** [parseInt(str)] without a radix: an integer, or [None] for [NaN]. *)
Definition parseInt (str : string) : option Z :=
  let s := trimStart (list_ascii_of_string str) in
  let '(negative, s) := readSign s in
  let '(v, n, _) :=
    match s with
    | z :: x :: rest =>
        if Ascii.eqb z "0" && (Ascii.eqb x "x" || Ascii.eqb x "X")
        then readHexDigits rest 0%Z 0%nat
        else readDigits s 0%Z 0%nat
    | _ => readDigits s 0%Z 0%nat
    end in
  if (n =? 0)%nat then None else Some (if negative then (- v)%Z else v).

(** The exponent part [e], [e+], [e-] followed by digits, or nothing. *)
Definition readExponent (s : list ascii) : Z :=
  match s with
  | c :: rest =>
      if Ascii.eqb c "e" || Ascii.eqb c "E" then
        let '(negative, rest') := readSign rest in
        let '(v, n, _) := readDigits rest' 0%Z 0%nat in
        if (n =? 0)%nat then 0%Z else if negative then (- v)%Z else v
      else 0%Z
  | [] => 0%Z
  end.

Definition parseFloat (str : string) : number :=
  let s := trimStart (list_ascii_of_string str) in
  let '(negative, s) := readSign s in
  let signed (x : number) := if negative then Number.neg x else x in
  if startsWith (list_ascii_of_string "Infinity") s then signed PInf
  else
    let '(ip, ni, s1) := readDigits s 0%Z 0%nat in
    let '(fp, nf, s2) :=
      match s1 with
      | c :: rest => if Ascii.eqb c "." then readDigits rest 0%Z 0%nat
                     else (0%Z, 0%nat, s1)
      | [] => (0%Z, 0%nat, s1)
      end in
    if (ni + nf =? 0)%nat then NaN
    else
      signed (Fin ((inject_Z ip + inject_Z fp / 10 ^ Z.of_nat nf)
                   * 10 ^ readExponent s2)).

(** [s.replace(pattern, replacement)] for a string pattern: the first
    occurrence only. *)
Fixpoint String_replace (s pattern replacement : string) : string :=
  if String.prefix pattern s then
    replacement ++
      substring (String.length pattern) (String.length s - String.length pattern) s
  else
    match s with
    | EmptyString => EmptyString
    | String c rest => String c (String_replace rest pattern replacement)
    end.

(** [s.replace(/[$,]/g, '')] *)
Fixpoint stripDollarComma (s : string) : string :=
  match s with
  | EmptyString => EmptyString
  | String c rest =>
      if Ascii.eqb c "$" || Ascii.eqb c "," then stripDollarComma rest
      else String c (stripDollarComma rest)
  end.

(** [`$${x.toLocaleString()}`] *)
Definition dollars (x : number) : string := "$" ++ toLocaleString x.

(** [`$${Math.round(x).toLocaleString()}`] *)
Definition roundedDollars (x : number) : string := dollars (Math.round x).

(** The amount a cash field shows:
    [parseFloat(field.replace(/[$,]/g, ''))]. *)
Definition cashOf (field : string) : number := parseFloat (stripDollarComma field).

(** ** Salary / dividend comparator ([calculateSmartSplitStrategy]) *)

Module SmartSplit.

(** The locals of [calculateSmartSplitStrategy] that reach the result. *)
Module Locals.
Record Amounts : Type :=
  { cpp : Contributions;
    ei : Contributions;
    corporateTax : number;
    retainedEarnings : number;
    rrspRoom : number;
    totalPersonalTax : number;
    totalTax : number;
    netCash : number;
    effectivePersonalRate : number }.
End Locals.

Definition amounts (salary dividend netBusinessIncome : number) : Locals.Amounts :=
  let cpp := calculateCPPContributions salary in
  let ei := calculateEIContributions salary in
  let personalIncomeTax := calculatePersonalTax salary in
  let dividendResult := calculateDividendTax dividend salary in
  let totalSalaryExpense := (salary + employer cpp + employer ei)%num in
  let corporateIncomeAfterSalary :=
    Math.max (netBusinessIncome - totalSalaryExpense) (Fin 0) in
  let corporateTax :=
    (corporateIncomeAfterSalary * TAX_RATES.SMALL_BUSINESS_RATE)%num in
  let retainedEarnings := (corporateIncomeAfterSalary - corporateTax)%num in
  let rrspRoom := Math.min (salary * Fin 0.18) (Fin 31560) in
  let totalPersonalTax := (personalIncomeTax + tax dividendResult)%num in
  let totalPayrollTaxes :=
    (employee cpp + employee ei + employer cpp + employer ei)%num in
  let totalTax := (totalPersonalTax + totalPayrollTaxes + corporateTax)%num in
  let netCash :=
    (salary + dividend
     - (personalIncomeTax + tax dividendResult + employee cpp + employee ei))%num in
  let personalTaxBurden :=
    (personalIncomeTax + tax dividendResult + employee cpp + employee ei)%num in
  let personalWithdrawal := (salary + dividend)%num in
  let effectivePersonalRate :=
    if (personalWithdrawal >? Fin 0)%num
    then (personalTaxBurden / personalWithdrawal * Fin 100)%num
    else Fin 0 in
  {| Locals.cpp := cpp; Locals.ei := ei; Locals.corporateTax := corporateTax;
     Locals.retainedEarnings := retainedEarnings; Locals.rrspRoom := rrspRoom;
     Locals.totalPersonalTax := totalPersonalTax; Locals.totalTax := totalTax;
     Locals.netCash := netCash;
     Locals.effectivePersonalRate := effectivePersonalRate |}.

(** The returned object: every field is a formatted string. *)
Record Strategy : Type :=
  { salary : string;
    dividends : string;
    corporateTax : string;
    personalTax : string;
    totalTax : string;
    netIncome : string;
    effectiveTaxRate : string;
    rrspRoom : string;
    cppContributions : string;
    corporateRetained : string }.

Definition calculateSmartSplitStrategy
  (salary dividend netBusinessIncome : number) : Strategy :=
  let a := amounts salary dividend netBusinessIncome in
  {| salary := dollars salary;
     dividends := dollars dividend;
     corporateTax := roundedDollars (Locals.corporateTax a);
     personalTax :=
       roundedDollars
         (Locals.totalPersonalTax a + employee (Locals.cpp a) + employee (Locals.ei a))%num
       ++ " (Tax: " ++ roundedDollars (Locals.totalPersonalTax a)
       ++ ", CPP: " ++ roundedDollars (employee (Locals.cpp a))
       ++ ", EI: " ++ roundedDollars (employee (Locals.ei a)) ++ ")";
     totalTax := roundedDollars (Locals.totalTax a);
     netIncome := roundedDollars (Locals.netCash a);
     effectiveTaxRate := toFixed1 (Locals.effectivePersonalRate a) ++ "%";
     rrspRoom := roundedDollars (Locals.rrspRoom a);
     cppContributions :=
       roundedDollars (employee (Locals.cpp a) + employer (Locals.cpp a))%num;
     corporateRetained :=
       roundedDollars (Math.max (Locals.retainedEarnings a - dividend) (Fin 0)) |}.

(** One row of the comparison table of [/api/tax-calculation]. *)
Record Row : Type := { strategy : string; result : Strategy }.

Definition netBusinessIncome (revenue expensesPercentage : number) : number :=
  let expenses := (revenue * expensesPercentage / Fin 100)%num in
  (revenue - expenses)%num.

Definition strategies (withdrawalAmount netBusinessIncome : number) : list Row :=
  [ {| strategy := "100% Salary";
       result := calculateSmartSplitStrategy withdrawalAmount (Fin 0) netBusinessIncome |};
    {| strategy := "100% Dividend";
       result := calculateSmartSplitStrategy (Fin 0) withdrawalAmount netBusinessIncome |};
    {| strategy := "50% Salary / 50% Dividend";
       result := calculateSmartSplitStrategy
                   (Math.round (withdrawalAmount * Fin 0.5))
                   (Math.round (withdrawalAmount * Fin 0.5)) netBusinessIncome |};
    {| strategy := "Optimal Mix (65% Salary / 35% Dividend)";
       result := calculateSmartSplitStrategy
                   (Math.round (withdrawalAmount * Fin 0.65))
                   (Math.round (withdrawalAmount * Fin 0.35)) netBusinessIncome |} ].

End SmartSplit.

(** ** Investment comparator ([calculateInvestmentStrategies]
    and the [/api/calculate-investment] handler) *)

Module Investment.

Record Input : Type :=
  { investmentAmount : number;
    rrspRoom : number;
    currentIncomeLevel : string;
    withdrawalIncomeLevel : string;
    timeline : string }.

Definition getDividendRate (income : string) (isRetirement : bool) : number :=
  if isRetirement then
    if (income =? "Under $50K")%string then Fin 0.10
    else if (income =? "$50-100K")%string then Fin 0.2028
    else if (income =? "$100-200K")%string then Fin 0.30
    else if (income =? "Over $200K")%string then Fin 0.35
    else Fin 0.2028
  else
    if (income =? "Under $50K")%string then Fin 0.15
    else if (income =? "$50-100K")%string then Fin 0.25
    else if (income =? "$100-200K")%string then Fin 0.39
    else if (income =? "Over $200K")%string then Fin 0.45
    else Fin 0.39.

Definition getPersonalTaxRate (income : string) : number :=
  if (income =? "Under $50K")%string then Fin 0.20
  else if (income =? "$50-100K")%string then Fin 0.2965
  else if (income =? "$100-200K")%string then Fin 0.35
  else if (income =? "Over $200K")%string then Fin 0.45
  else Fin 0.2965.

Definition getRrspRefundRate (income : string) : number :=
  if (income =? "Under $50K")%string then Fin 0.20
  else if (income =? "$50-100K")%string then Fin 0.35
  else if (income =? "$100-200K")%string then Fin 0.4116
  else if (income =? "Over $200K")%string then Fin 0.50
  else Fin 0.4116.

(** The locals of [calculateInvestmentStrategies], in the order the
    source computes them.  The locals of the [rrspRoom > 0] branch are
    pure and are computed here as well. *)
Module Locals.
Record Amounts : Type :=
  { years : option Z;
    corpAmount : number;
    corpFinalValue : number;
    corpGains : number;
    rrspAmount : number;
    rrspInitialValue : number;
    rrspInitialGains : number;
    netCorpTax : number;
    personalDivTax : number;
    corpTotalTax : number;
    corpFinalCash : number;
    personalInvestment : number;
    personalFinalValue : number;
    personalGains : number;
    personalTotalTax : number;
    personalFinalCash : number;
    rrspRefund : number;
    refundFinalValue : number;
    refundGains : number;
    rrspTotalTax : number;
    rrspFinalCash : number }.
End Locals.

Definition amounts (input : Input) : Locals.Amounts :=
  let years := parseInt (String_replace (timeline input) " years" "") in
  let corpAmount := investmentAmount input in
  let corpFinalValue := (corpAmount * Math.pow 1.07 years)%num in
  let corpGains := (corpFinalValue - corpAmount)%num in
  let rrspAmount := Math.min (investmentAmount input) (rrspRoom input) in
  let rrspInitialValue := (rrspAmount * Math.pow 1.07 years)%num in
  let rrspInitialGains := (rrspInitialValue - rrspAmount)%num in
  let currentDivRate := getDividendRate (currentIncomeLevel input) false in
  let retirementDivRate := getDividendRate (withdrawalIncomeLevel input) true in
  let personalTaxRate := getPersonalTaxRate (withdrawalIncomeLevel input) in
  let rrspRefundRate := getRrspRefundRate (currentIncomeLevel input) in
  (* Strategy 1: corporate investment *)
  let corpTaxableGains := (corpGains * Fin 0.5)%num in
  let corpPassiveTax := (corpTaxableGains * Fin 0.5017)%num in
  let refundableRDTOH := (corpTaxableGains * Fin 0.3067)%num in
  let dividendRefund := Math.min refundableRDTOH (corpFinalValue * Fin 0.3833) in
  let netCorpTax := (corpPassiveTax - dividendRefund)%num in
  let availableForDividend := (corpFinalValue - netCorpTax + dividendRefund)%num in
  let personalDivTax := (availableForDividend * retirementDivRate)%num in
  let corpTotalTax := (netCorpTax + personalDivTax)%num in
  let corpFinalCash := (availableForDividend - personalDivTax)%num in
  (* Strategy 2: personal investment *)
  let extractionTax := (corpAmount * currentDivRate)%num in
  let personalInvestment := (corpAmount - extractionTax)%num in
  let personalFinalValue := (personalInvestment * Math.pow 1.07 years)%num in
  let personalGains := (personalFinalValue - personalInvestment)%num in
  let personalCapGainsTax := (personalGains * Fin 0.5 * personalTaxRate)%num in
  let personalTotalTax := (extractionTax + personalCapGainsTax)%num in
  let personalFinalCash := (personalFinalValue - personalCapGainsTax)%num in
  (* Strategy 3: RRSP *)
  let rrspRefund := (rrspAmount * rrspRefundRate)%num in
  let refundFinalValue := (rrspRefund * Math.pow 1.07 years)%num in
  let rrspWithdrawalTax := (rrspInitialValue * personalTaxRate)%num in
  let refundGains := (refundFinalValue - rrspRefund)%num in
  let refundCapGainsTax := (refundGains * Fin 0.5 * personalTaxRate)%num in
  let rrspTotalTax := (rrspWithdrawalTax + refundCapGainsTax)%num in
  let rrspFinalCash :=
    ((rrspInitialValue - rrspWithdrawalTax)
     + (refundFinalValue - refundCapGainsTax))%num in
  {| Locals.years := years; Locals.corpAmount := corpAmount;
     Locals.corpFinalValue := corpFinalValue; Locals.corpGains := corpGains;
     Locals.rrspAmount := rrspAmount;
     Locals.rrspInitialValue := rrspInitialValue;
     Locals.rrspInitialGains := rrspInitialGains;
     Locals.netCorpTax := netCorpTax; Locals.personalDivTax := personalDivTax;
     Locals.corpTotalTax := corpTotalTax; Locals.corpFinalCash := corpFinalCash;
     Locals.personalInvestment := personalInvestment;
     Locals.personalFinalValue := personalFinalValue;
     Locals.personalGains := personalGains;
     Locals.personalTotalTax := personalTotalTax;
     Locals.personalFinalCash := personalFinalCash;
     Locals.rrspRefund := rrspRefund;
     Locals.refundFinalValue := refundFinalValue;
     Locals.refundGains := refundGains;
     Locals.rrspTotalTax := rrspTotalTax;
     Locals.rrspFinalCash := rrspFinalCash |}.

(** One entry of the array [calculateInvestmentStrategies] returns. *)
Record Strategy : Type :=
  { strategy : string;
    initialInvestment : string;
    finalValue : string;
    totalTaxPaid : string;
    finalCashInPocket : string;
    effectiveTaxRate : string;
    auditRisk : string }.

(** [`${((tax / gains) * 100).toFixed(1)}%`] *)
Definition ratePercent (totalTax gains : number) : string :=
  toFixed1 (totalTax / gains * Fin 100)%num ++ "%".

Definition corporateStrategy (a : Locals.Amounts) : Strategy :=
  {| strategy := "Corporate Investment";
     initialInvestment := dollars (Locals.corpAmount a);
     finalValue := roundedDollars (Locals.corpFinalValue a);
     totalTaxPaid :=
       roundedDollars (Locals.corpTotalTax a)
       ++ " (Passive: " ++ roundedDollars (Locals.netCorpTax a)
       ++ " + Dividend: " ++ roundedDollars (Locals.personalDivTax a) ++ ")";
     finalCashInPocket := roundedDollars (Locals.corpFinalCash a);
     effectiveTaxRate := ratePercent (Locals.corpTotalTax a) (Locals.corpGains a);
     auditRisk := "5-10%" |}.

Definition personalStrategy (a : Locals.Amounts) : Strategy :=
  {| strategy := "Personal Investment";
     initialInvestment := roundedDollars (Locals.personalInvestment a);
     finalValue := roundedDollars (Locals.personalFinalValue a);
     totalTaxPaid := roundedDollars (Locals.personalTotalTax a);
     finalCashInPocket := roundedDollars (Locals.personalFinalCash a);
     effectiveTaxRate :=
       ratePercent (Locals.personalTotalTax a) (Locals.personalGains a);
     auditRisk := "5%" |}.

Definition rrspStrategy (input : Input) (a : Locals.Amounts) : Strategy :=
  if (rrspRoom input >? Fin 0)%num then
    {| strategy := "RRSP Strategy";
       initialInvestment :=
         dollars (Locals.rrspAmount a) ++ " (RRSP) + "
         ++ roundedDollars (Locals.rrspRefund a) ++ " (Refund)";
       finalValue :=
         roundedDollars (Locals.rrspInitialValue a + Locals.refundFinalValue a)%num;
       totalTaxPaid := roundedDollars (Locals.rrspTotalTax a);
       finalCashInPocket := roundedDollars (Locals.rrspFinalCash a);
       effectiveTaxRate :=
         ratePercent (Locals.rrspTotalTax a)
                     (Locals.rrspInitialGains a + Locals.refundGains a)%num;
       auditRisk := "2%" |}
  else
    {| strategy := "RRSP Strategy";
       initialInvestment := "Not Available";
       finalValue := "Not Available";
       totalTaxPaid := "Not Available";
       finalCashInPocket := "Not Available";
       effectiveTaxRate := "N/A";
       auditRisk := "N/A" |}.

Definition calculateInvestmentStrategies (input : Input) : list Strategy :=
  let a := amounts input in
  [ corporateStrategy a; personalStrategy a; rrspStrategy input a ].

(** *** The handler: recommendations and ranking

    The narrative fields merged in from the text-generation service
    ([description], [advantages], ...) take no part in the ranking and
    are left out of [Ranked]. *)

Record Ranked : Type :=
  { entry : Strategy; riskLevel : string; recommendation : string }.

(** The callback of [strategies.map]. *)
Definition finalStrategy (strategy : Strategy) : Ranked :=
  {| entry := strategy;
     riskLevel :=
       if (auditRisk strategy =? "2%")%string then "Low"
       else if (auditRisk strategy =? "5%")%string then "Medium"
       else "Medium-High";
     recommendation := "" |}.

Definition finalStrategies (strategies : list Strategy) : list Ranked :=
  map finalStrategy strategies.

Definition recommend (text : string) (s : Ranked) : Ranked :=
  {| entry := entry s; riskLevel := riskLevel s; recommendation := text |}.

Definition isAvailable (s : Ranked) : bool :=
  negb (finalCashInPocket (entry s) =? "Not Available")%string.

Definition cash (s : Ranked) : number := cashOf (finalCashInPocket (entry s)).

(** The comparator handed to [sort]: [cashB - cashA]. *)
Definition byCashDescending (a b : Ranked) : number := (cash b - cash a)%num.

(** [Array.prototype.sort] with a comparator.  The sort is stable, and a
    comparator result that is [NaN] counts as zero; for a consistent
    comparator every stable sort returns this list. *)
Fixpoint insertSorted {A : Type} (comparefn : A -> A -> number) (x : A)
  (sorted : list A) : list A :=
  match sorted with
  | [] => [x]
  | e :: rest =>
      if (comparefn e x >? Fin 0)%num then x :: e :: rest
      else e :: insertSorted comparefn x rest
  end.

Definition Array_sort {A : Type} (comparefn : A -> A -> number) (l : list A)
  : list A :=
  fold_left (fun sorted x => insertSorted comparefn x sorted) l [].

Definition availableStrategies (final : list Ranked) : list Ranked :=
  Array_sort byCashDescending (filter isAvailable final).

Definition unavailableStrategies (final : list Ranked) : list Ranked :=
  filter (fun s => negb (isAvailable s)) final.

Definition optimalText : string :=
  "⭐ OPTIMAL - Highest after-tax return for your situation".

Definition considerText (difference : number) : string :=
  "Consider optimal strategy - potentially $" ++ toLocaleString difference
  ++ " more after-tax cash".

Definition notApplicableText : string :=
  "Not applicable - No RRSP contribution room available".

(** The [forEach] over the sorted available strategies: index 0 is marked
    optimal, every later index is compared with [availableStrategies[0]]. *)
Definition addRecommendations (available : list Ranked) : list Ranked :=
  match available with
  | [] => []
  | first :: others =>
      recommend optimalText first ::
      map (fun strategy =>
             let optimalCash := cash first in
             let strategyCash := cash strategy in
             let difference := (optimalCash - strategyCash)%num in
             recommend (considerText difference) strategy)
          others
  end.

(** The response of the handler, [sortedStrategies]. *)
Definition sortedStrategies (input : Input) : list Ranked :=
  let final := finalStrategies (calculateInvestmentStrategies input) in
  addRecommendations (availableStrategies final)
  ++ map (recommend notApplicableText) (unavailableStrategies final).

End Investment.

(** ** Derived values of [/api/calculate-expenses] *)

Module Expense.

Definition homeOfficePercentage (homeOfficeSize totalHomeSize : number) : number :=
  if (totalHomeSize >? Fin 0)%num
  then (homeOfficeSize / totalHomeSize * Fin 100)%num
  else Fin 0.

Definition annualMeals (monthlyMeals : number) : number :=
  (monthlyMeals * Fin 12)%num.

End Expense.

(** ** Chat: titles, history and errors

    A JavaScript string is the list of its UTF-16 code units, so that
    [length] and [substring] count what the source counts. *)

Module Chat.

Definition jsstring : Type := list N.

(** The code units of an ASCII literal. *)
Definition units (s : string) : jsstring :=
  map N_of_ascii (list_ascii_of_string s).

(** [content.length > 50 ? content.substring(0, 50) + "..." : content],
    the title of a conversation, in the route and in the message input. *)
Definition conversationTitle (content : jsstring) : jsstring :=
  if (50 <? List.length content)%nat
  then firstn 50 content ++ units "..."
  else content.

(** A row of the [officegpt_messages] table. *)
Module Schema.

Record Message : Type :=
  { id : Z;
    conversationId : Z;
    role : jsstring;
    content : jsstring;
    model : option jsstring;
    createdAt : Z }.

End Schema.

(** An entry of the history and of the [messages] array of the service. *)
Record Turn : Type := { role : jsstring; content : jsstring }.

(** [messages.slice(-10)] *)
Definition lastTen {A : Type} (messages : list A) : list A :=
  skipn (List.length messages - 10) messages.

(** The history the route hands to the service:
    [conversation.messages.slice(-10).map(msg => ({ role, content }))]. *)
Definition conversationHistory (messages : list Schema.Message) : list Turn :=
  map (fun msg => {| role := Schema.role msg; content := Schema.content msg |})
      (lastTen messages).

Definition systemPrompt : jsstring :=
  units "You are a helpful AI assistant. Give direct, natural responses without formal business language, headers, or structured analysis. Keep your answers conversational and friendly, like you're chatting with someone. Don't use business document formatting.".

(** The [messages] array [analyzeQuery] builds: the system prompt, the
    history, the query. *)
Definition analysisMessages (query : jsstring) (conversationHistory : list Turn)
  : list Turn :=
  [ {| role := units "system"; content := systemPrompt |} ]
  ++ conversationHistory ++ [ {| role := units "user"; content := query |} ].

Fixpoint startsWithUnits (prefix s : jsstring) : bool :=
  match prefix, s with
  | [], _ => true
  | p :: prefix', c :: s' => (p =? c)%N && startsWithUnits prefix' s'
  | _ :: _, [] => false
  end.

(** [s.includes(pattern)] *)
Fixpoint includes (s pattern : jsstring) : bool :=
  startsWithUnits pattern s
  || match s with
     | [] => false
     | _ :: rest => includes rest pattern
     end.

(** The message of the error [analyzeQuery] throws from its [catch]:
    [Some message] for a caught [Error], [None] for any other value. *)
Definition serviceError (caught : option jsstring) : jsstring :=
  match caught with
  | Some message =>
      if includes message (units "API key") then
        units "Invalid API key. Please check your OpenAI API key configuration."
      else if includes message (units "rate limit") then
        units "Rate limit exceeded. Please try again in a moment."
      else if includes message (units "model") then
        units "Invalid model specified. Please select a valid model."
      else units "AI service error: " ++ message
  | None => units "An unexpected error occurred during analysis."
  end.

(** The answer of the [catch] of [/api/analyze-query] to an error with the
    given message: the status and the message of the body. *)
Definition queryErrorResponse (message : jsstring) : Z * jsstring :=
  if includes message (units "API key") then
    (500%Z, units "AI service configuration error. Please check API keys.")
  else if includes message (units "rate limit") then
    (429%Z, units "Service rate limit exceeded. Please try again in a moment.")
  else (500%Z, message).

End Chat.

(** ** Specification-side definitions *)

(** The bracket of the specification's data model: [upper = None] is the
    unbounded last bracket. *)
Record Band : Type := { lower : Q; upper : option Q; pct : Q }.

Definition bandWidth (b : Band) : option Q :=
  match upper b with
  | Some u => Some (u - lower b + 1)
  | None => None
  end.

(** The portion of the remaining income taxed in a bracket:
    [min(remaining, max - min + 1)]. *)
Definition portion (remaining : Q) (b : Band) : Q :=
  match bandWidth b with
  | Some w => Qmin remaining w
  | None => remaining
  end.

(** The walk as the specification words it: brackets in ascending order,
    each taxing its portion at its rate and passing on what is left,
    until nothing is left or the table ends. *)
Fixpoint walkSpec (table : list Band) (remaining : Q) : Q :=
  match table with
  | [] => 0
  | b :: rest =>
      if Qle_bool remaining 0 then 0
      else portion remaining b * pct b
           + walkSpec rest (remaining - portion remaining b)
  end.

Definition bandOf (bracket : TaxBracket) : option Band :=
  match min bracket, max bracket, rate bracket with
  | Fin lo, Fin hi, Fin r => Some {| lower := lo; upper := Some hi; pct := r |}
  | Fin lo, PInf, Fin r => Some {| lower := lo; upper := None; pct := r |}
  | _, _, _ => None
  end.

(** Every bracket of the table read as a [Band], or nothing when a bracket
    has a field that is not of that shape. *)
Fixpoint bandsOf (brackets : list TaxBracket) : option (list Band) :=
  match brackets with
  | [] => Some []
  | bracket :: rest =>
      match bandOf bracket, bandsOf rest with
      | Some b, Some bs => Some (b :: bs)
      | _, _ => None
      end
  end.

(** A table whose brackets follow one another from [start] on: each
    begins where the one before ended plus one, and only the last one may
    be unbounded. *)
Fixpoint contiguous (start : Q) (table : list Band) : Prop :=
  match table with
  | [] => True
  | b :: rest =>
      lower b == start /\
      match upper b with
      | Some u => start <= u + 1 /\ contiguous (u + 1) rest
      | None => rest = []
      end
  end.

Definition nonnegBand (b : Band) : Prop :=
  0 <= pct b /\ match bandWidth b with Some w => 0 <= w | None => True end.

(** The 2024 table as the specification reads it. *)
Definition personalBands : list Band :=
  match bandsOf TAX_RATES.PERSONAL_BRACKETS with
  | Some table => table
  | None => []
  end.

(** [clamp(v, lo, hi)] of the specification. *)
Definition clamp (v lo hi : Q) : Q := Qmin (Qmax v lo) hi.

(** The four labels of [IncomeBracketLabel]. *)
Definition incomeLabels : list string :=
  [ "Under $50K"; "$50-100K"; "$100-200K"; "Over $200K" ]%string.

(** How a call ends: with a value, or with a thrown error. *)
Inductive ErrorKind : Type := InvalidInput.

Inductive Completion : Type :=
| Returns (value : number)
| Throws (error : ErrorKind).

(** The three lookups are [switch] statements whose every arm, the
    [default] one included, is a [return]: a call ends with the value. *)
Definition dividendRateLookup (income : string) (isRetirement : bool) : Completion :=
  Returns (Investment.getDividendRate income isRetirement).

Definition personalTaxRateLookup (income : string) : Completion :=
  Returns (Investment.getPersonalTaxRate income).

Definition rrspRefundRateLookup (income : string) : Completion :=
  Returns (Investment.getRrspRefundRate income).

(** Modelled from the spec: the request schema that validates the body of
    [/api/calculate-investment] ([investmentInputWithUserSchema] of the
    shared schema module) is not among the sources.  The specification
    hands the comparator "an investable amount, available tax-advantaged
    contribution room, income-level labels ... and a time horizon in
    years": the two amounts are finite numbers and the timeline reads as a
    whole number of years. *)
Definition validInvestmentInput (input : Investment.Input) : Prop :=
  exists (amount room : Q) (years : Z),
    Investment.investmentAmount input = Fin amount
    /\ Investment.rrspRoom input = Fin room
    /\ parseInt (String_replace (Investment.timeline input) " years" "")
       = Some years.

(** [x <= y] holds between two numbers (never with [NaN]). *)
Definition numle (x y : number) : Prop := (x <=? y)%num = true.

Infix "<=n" := numle (at level 70).

(** What the parsers need to know of a character: a decimal digit, its
    value, and that it is none of the characters they treat specially. *)
Definition plainDigit (c : ascii) : Prop :=
  isDigit c = true /\ isWhiteSpace c = false
  /\ Ascii.eqb c "$" = false /\ Ascii.eqb c "," = false
  /\ Ascii.eqb c "-" = false /\ Ascii.eqb c "+" = false
  /\ Ascii.eqb "I" c = false.

(** Characters that survive [replace(/[$,]/g, '')]. *)
Definition keepChar (c : ascii) : bool :=
  negb (Ascii.eqb c "$" || Ascii.eqb c ",").

(** The amount behind the cash field of a ranked strategy, when that field
    reads as a finite number. *)
Definition cashKey (s : Investment.Ranked) : Q :=
  match Investment.cash s with
  | Fin q => q
  | _ => 0
  end.

Definition finiteCash (s : Investment.Ranked) : Prop :=
  exists q, Investment.cash s = Fin q.

(** A request with contribution room, on which the ranking is exercised. *)
Definition sampleInput : Investment.Input :=
  {| Investment.investmentAmount := Fin 100000;
     Investment.rrspRoom := Fin 30000;
     Investment.currentIncomeLevel := "$100-200K";
     Investment.withdrawalIncomeLevel := "$50-100K";
     Investment.timeline := "10 years" |}.

(** The after-tax cash [calculateInvestmentStrategies] computes for the
    vehicle an entry names ([corpFinalCash], [personalFinalCash] or
    [rrspFinalCash]), before it is rounded and written into
    [finalCashInPocket]. *)
Definition computedFinalCash (input : Investment.Input) (e : Investment.Strategy)
  : number :=
  let a := Investment.amounts input in
  if (Investment.strategy e =? "Corporate Investment")%string
  then Investment.Locals.corpFinalCash a
  else if (Investment.strategy e =? "Personal Investment")%string
  then Investment.Locals.personalFinalCash a
  else Investment.Locals.rrspFinalCash a.

(** A table in which the walk never runs out of brackets: some bracket is
    unbounded. *)
Fixpoint unboundedLast (table : list Band) : Prop :=
  match table with
  | [] => False
  | b :: rest =>
      match bandWidth b with
      | None => True
      | Some _ => unboundedLast rest
      end
  end.

(** The rates of a table never fall from one bracket to the next. *)
Fixpoint ratesAscend (table : list Band) : Prop :=
  match table with
  | [] => True
  | b :: rest => Forall (fun b' => pct b <= pct b') rest /\ ratesAscend rest
  end.

(** The personal burden of a split in rationals: income tax, dividend tax,
    employee CPP and employee EI. *)
Definition burdenOf (s d : Q) : Q :=
  walkSpec personalBands s
  + Qmax (walkSpec personalBands (s + (d + d * 0.15))
          - walkSpec personalBands s
          - ((d + d * 0.15) * 0.090301 + (d + d * 0.15) * 0.029863)) 0
  + (Qmin (Qmax (s - 3500) 0) (68500 - 3500) * 0.0595
     + Qmin (Qmax (s - 68500) 0) (73200 - 68500) * 0.04)
  + Qmin s 63200 * 0.0166.

(** * Properties *)

(** ** The embedding at work *)

Example calculatePersonalTax_60000 :
  calculatePersonalTax (Fin 60000) =n= Fin 12607.933.
Proof. vm_compute. reflexivity. Qed.

Example toLocaleString_samples :
  map toLocaleString [Fin 1234567.8915; Fin (-1234.5); Fin 1000; Fin 0; PInf]
  = [ "1,234,567.892"; "-1,234.5"; "1,000"; "0"; "∞" ]%string.
Proof. vm_compute. reflexivity. Qed.

Example parseInt_samples :
  map (fun timeline => parseInt (String_replace timeline " years" ""))
      [ "10 years"; "0 years"; "25"; "soon" ]%string
  = [ Some 10%Z; Some 0%Z; Some 25%Z; None ].
Proof. vm_compute. reflexivity. Qed.

Example strategies_100000 :
  map (fun row => (SmartSplit.strategy row,
                   SmartSplit.totalTax (SmartSplit.result row),
                   SmartSplit.netIncome (SmartSplit.result row)))
      (SmartSplit.strategies (Fin 100000) (Fin 140000))
  = [ ("100% Salary", "$39,303", "$70,427");
      ("100% Dividend", "$32,600", "$84,480");
      ("50% Salary / 50% Dividend", "$37,901", "$76,528");
      ("Optimal Mix (65% Salary / 35% Dividend)", "$39,596", "$74,056") ]%string.
Proof. vm_compute. reflexivity. Qed.

Example sortedStrategies_100000 :
  map (fun s => (Investment.strategy (Investment.entry s),
                 Investment.finalCashInPocket (Investment.entry s),
                 Investment.effectiveTaxRate (Investment.entry s),
                 Investment.recommendation s))
      (Investment.sortedStrategies
         {| Investment.investmentAmount := Fin 100000;
            Investment.rrspRoom := Fin 30000;
            Investment.currentIncomeLevel := "$100-200K";
            Investment.withdrawalIncomeLevel := "$50-100K";
            Investment.timeline := "10 years" |})
  = [ ("Corporate Investment", "$161,127", "52.1%",
       "⭐ OPTIMAL - Highest after-tax return for your situation");
      ("Personal Investment", "$111,250", "80.9%",
       "Consider optimal strategy - potentially $49,877 more after-tax cash");
      ("RRSP Strategy", "$64,037", "47.0%",
       "Consider optimal strategy - potentially $97,090 more after-tax cash") ]%string.
Proof. vm_compute. reflexivity. Qed.

(** ** Numbers *)

Lemma numeq_refl (x : number) : x =n= x.
Proof. destruct x; simpl; auto with qarith. Qed.

Lemma numeq_sym (x y : number) : x =n= y -> y =n= x.
Proof. destruct x, y; simpl; auto with qarith. Qed.

Lemma numeq_trans (x y z : number) : x =n= y -> y =n= z -> x =n= z.
Proof.
  destruct x, y, z; simpl; try tauto.
  intros H1 H2. now rewrite H1.
Qed.

Lemma numeq_Fin_inv (x : number) (q : Q) :
  x =n= Fin q -> exists t, x = Fin t /\ t == q.
Proof. destruct x; simpl; try tauto. intros H. now exists q0. Qed.

Lemma Qle_bool_false (a b : Q) : Qle_bool a b = false <-> b < a.
Proof.
  split; intros H.
  - apply Qnot_le_lt. intros Hle. apply Qle_bool_iff in Hle. congruence.
  - destruct (Qle_bool a b) eqn:E; auto.
    apply Qle_bool_iff in E. lra.
Qed.

(** [Math.min] and [Math.max] on finite numbers are [Qmin] and [Qmax]. *)
Lemma Math_min_Fin (a b : Q) : Math.min (Fin a) (Fin b) =n= Fin (Qmin a b).
Proof.
  unfold Math.min; simpl. destruct (Qle_bool a b) eqn:E; simpl.
  - apply Qle_bool_iff in E. symmetry. now apply Q.min_l.
  - apply Qle_bool_false in E. symmetry. apply Q.min_r. lra.
Qed.

Lemma Math_max_Fin (a b : Q) : Math.max (Fin a) (Fin b) =n= Fin (Qmax a b).
Proof.
  unfold Math.max; simpl. destruct (Qle_bool a b) eqn:E; simpl.
  - apply Qle_bool_iff in E. symmetry. now apply Q.max_r.
  - apply Qle_bool_false in E. symmetry. apply Q.max_l. lra.
Qed.

Lemma Math_min_Fin_eq (a b : Q) :
  Math.min (Fin a) (Fin b) = Fin (if Qle_bool a b then a else b).
Proof. unfold Math.min; simpl. now destruct (Qle_bool a b). Qed.

Lemma Math_max_Fin_eq (a b : Q) :
  Math.max (Fin a) (Fin b) = Fin (if Qle_bool a b then b else a).
Proof. unfold Math.max; simpl. now destruct (Qle_bool a b). Qed.

Lemma numle_Fin (a b : Q) : Fin a <=n Fin b <-> a <= b.
Proof. unfold numle; simpl. apply Qle_bool_iff. Qed.

(** ** The bracket walk *)

Lemma Qmin_case_le (r w : Q) :
  (r <= w /\ Qmin r w == r) \/ (w < r /\ Qmin r w == w).
Proof.
  destruct (Qlt_le_dec w r) as [H | H]; [right | left]; split; auto.
  - apply Q.min_r. lra.
  - now apply Q.min_l.
Qed.

Lemma portion_compat (b : Band) (r r' : Q) :
  r == r' -> portion r b == portion r' b.
Proof.
  unfold portion. destruct (bandWidth b); intros H; [| exact H].
  now rewrite H.
Qed.

Lemma walkSpec_compat (table : list Band) :
  forall r r', r == r' -> walkSpec table r == walkSpec table r'.
Proof.
  induction table as [| b rest IH]; intros r r' H; simpl; [reflexivity |].
  rewrite <- (Qleb_comp _ _ H 0 0 (Qeq_refl 0)).
  destruct (Qle_bool r 0); [reflexivity |].
  pose proof (portion_compat b r r' H) as Hp.
  apply Qplus_comp.
  - now apply Qmult_comp.
  - apply IH. apply Qplus_comp; [exact H | now apply Qopp_comp].
Qed.

#[export] Instance walkSpec_Proper (table : list Band) :
  Proper (Qeq ==> Qeq) (walkSpec table).
Proof. intros r r' H. now apply walkSpec_compat. Qed.

Lemma walkSpec_nonpos (table : list Band) (r : Q) :
  r <= 0 -> walkSpec table r = 0.
Proof.
  intros H. destruct table; simpl; auto.
  apply Qle_bool_iff in H. now rewrite H.
Qed.

Lemma portion_bounds (b : Band) (r : Q) :
  nonnegBand b -> 0 <= r -> 0 <= portion r b <= r.
Proof.
  unfold nonnegBand, portion. destruct (bandWidth b) as [w |]; intros [_ Hw] Hr.
  - destruct (Qmin_case_le r w) as [[? ->] | [? ->]]; lra.
  - lra.
Qed.

Lemma portion_mono (b : Band) (x y : Q) :
  x <= y -> portion x b <= portion y b /\ x - portion x b <= y - portion y b.
Proof.
  unfold portion. destruct (bandWidth b) as [w |]; intros H.
  - destruct (Qmin_case_le x w) as [[? ->] | [? ->]],
             (Qmin_case_le y w) as [[? ->] | [? ->]]; lra.
  - lra.
Qed.

Lemma walkSpec_nonneg (table : list Band) :
  Forall nonnegBand table -> forall r, 0 <= walkSpec table r.
Proof.
  induction 1 as [| b rest Hb _ IH]; intros r; simpl; [lra |].
  destruct (Qle_bool r 0) eqn:E; [lra |].
  apply Qle_bool_false in E.
  assert (0 <= portion r b <= r) by (apply portion_bounds; auto; lra).
  assert (0 <= portion r b * pct b)
    by (apply Qmult_le_0_compat; [lra | apply Hb]).
  specialize (IH (r - portion r b)). lra.
Qed.

Lemma walkSpec_mono (table : list Band) :
  Forall nonnegBand table ->
  forall x y, x <= y -> walkSpec table x <= walkSpec table y.
Proof.
  induction 1 as [| b rest Hb Hrest IH]; intros x y Hxy; simpl; [lra |].
  destruct (Qle_bool x 0) eqn:Ex, (Qle_bool y 0) eqn:Ey; try lra.
  - apply Qle_bool_false in Ey.
    assert (0 <= portion y b <= y) by (apply portion_bounds; auto; lra).
    assert (0 <= portion y b * pct b)
      by (apply Qmult_le_0_compat; [lra | apply Hb]).
    pose proof (walkSpec_nonneg rest Hrest (y - portion y b)). lra.
  - apply Qle_bool_false in Ex. apply Qle_bool_iff in Ey. lra.
  - destruct (portion_mono b x y Hxy) as [Hp Hr].
    specialize (IH _ _ Hr).
    assert (portion x b * pct b <= portion y b * pct b)
      by (apply Qmult_le_compat_r; [exact Hp | apply Hb]).
    lra.
Qed.

(** Inside the first bracket the walk is the income times its rate. *)
Lemma walkSpec_head_within (b : Band) (rest : list Band) (r : Q) :
  0 <= r ->
  match bandWidth b with Some w => r <= w | None => True end ->
  walkSpec (b :: rest) r == r * pct b.
Proof.
  intros Hr Hw. simpl.
  destruct (Qle_bool r 0) eqn:E.
  - apply Qle_bool_iff in E. assert (r == 0) as -> by lra. lra.
  - assert (portion r b == r) as Hp.
    { unfold portion. destruct (bandWidth b) as [w |]; [| reflexivity].
      now apply Q.min_l. }
    rewrite walkSpec_nonpos by lra. rewrite Hp. lra.
Qed.

(** Past the first bracket the walk taxes its whole width and goes on
    with the rest of the table. *)
Lemma walkSpec_head_beyond (b : Band) (rest : list Band) (w r : Q) :
  bandWidth b = Some w -> 0 <= w -> w <= r ->
  walkSpec (b :: rest) r == w * pct b + walkSpec rest (r - w).
Proof.
  intros Hb Hw Hr. simpl.
  destruct (Qle_bool r 0) eqn:E.
  - apply Qle_bool_iff in E. assert (w == 0) as Hw0 by lra.
    rewrite walkSpec_nonpos by lra. rewrite Hw0. lra.
  - assert (portion r b == w) as Hp.
    { unfold portion. rewrite Hb. now apply Q.min_r. }
    rewrite (walkSpec_compat rest (r - portion r b) (r - w)) by (rewrite Hp; reflexivity).
    rewrite Hp. reflexivity.
Qed.

Lemma contiguous_lower_bound (table : list Band) :
  forall start b, contiguous start table -> In b table -> start <= lower b.
Proof.
  induction table as [| a rest IH]; intros start b Hc Hin; [destruct Hin |].
  destruct Hc as [Hlo Hup]. destruct Hin as [-> | Hin].
  - lra.
  - destruct (upper a) as [u |].
    + destruct Hup as [Hsu Hrest]. specialize (IH _ _ Hrest Hin). lra.
    + subst rest. destruct Hin.
Qed.

(** On the interval of a bracket, up to where the next one begins, the
    walk is linear with the slope of that bracket. *)
Lemma walkSpec_linear_on_band (table : list Band) :
  forall start b, contiguous start table -> In b table ->
  forall x y,
    lower b <= x -> x <= y ->
    match upper b with Some u => y <= u + 1 | None => True end ->
    walkSpec table (y - start) - walkSpec table (x - start) == pct b * (y - x).
Proof.
  induction table as [| a rest IH]; intros start b Hc Hin x y Hx Hxy Hy;
    [destruct Hin |].
  destruct Hc as [Hlo Hup]. destruct Hin as [-> | Hin].
  - assert (Hwy : match bandWidth b with
                  | Some w => y - start <= w
                  | None => True
                  end).
    { unfold bandWidth. destruct (upper b) as [u |]; [lra | exact I]. }
    assert (Hwx : match bandWidth b with
                  | Some w => x - start <= w
                  | None => True
                  end).
    { unfold bandWidth in *. destruct (upper b) as [u |]; [lra | exact I]. }
    rewrite (walkSpec_head_within b rest (y - start)) by (auto; lra).
    rewrite (walkSpec_head_within b rest (x - start)) by (auto; lra).
    lra.
  - destruct (upper a) as [u |] eqn:Eu; [| subst rest; destruct Hin].
    destruct Hup as [Hsu Hrest].
    pose proof (contiguous_lower_bound _ _ _ Hrest Hin) as Hlb.
    assert (Hw : bandWidth a = Some (u - lower a + 1))
      by (unfold bandWidth; now rewrite Eu).
    rewrite (walkSpec_head_beyond a rest _ (y - start) Hw) by lra.
    rewrite (walkSpec_head_beyond a rest _ (x - start) Hw) by lra.
    rewrite (walkSpec_compat rest (y - start - (u - lower a + 1)) (y - (u + 1)))
      by lra.
    rewrite (walkSpec_compat rest (x - start - (u - lower a + 1)) (x - (u + 1)))
      by lra.
    specialize (IH _ _ Hrest Hin x y Hx Hxy Hy). lra.
Qed.

(** The loop of the source computes the walk of the specification. *)
Lemma bracketLoop_walkSpec (brackets : list TaxBracket) :
  forall table, bandsOf brackets = Some table ->
  forall t r, bracketLoop brackets (Fin t) (Fin r) =n= Fin (t + walkSpec table r).
Proof.
  induction brackets as [| bracket rest IH]; intros table Hb t r; simpl in *.
  - injection Hb as <-. simpl. lra.
  - destruct (bandOf bracket) as [b |] eqn:Eb; [| discriminate].
    destruct (bandsOf rest) as [bs |]; [| discriminate].
    injection Hb as <-. specialize (IH bs eq_refl). simpl.
    destruct (Qle_bool r 0) eqn:E; [simpl; lra |].
    destruct bracket as [mn mx rt]. unfold bandOf in Eb; simpl in *.
    destruct mn as [lo | | |]; try discriminate.
    destruct mx as [hi | | |]; try discriminate;
      destruct rt as [p | | |]; try discriminate;
      injection Eb as <-; unfold portion, bandWidth; simpl.
    + assert (Hm : Qmin r (hi - lo + 1)
                   == if Qle_bool r (hi + - lo + 1) then r else hi + - lo + 1).
      { destruct (Qle_bool r (hi + - lo + 1)) eqn:E'.
        - apply Qle_bool_iff in E'. apply Q.min_l. lra.
        - apply Qle_bool_false in E'. rewrite Q.min_r; lra. }
      pose proof (walkSpec_compat bs _ _
                    (Qplus_comp _ _ (Qeq_refl r) _ _ (Qopp_comp _ _ Hm))) as Hw.
      destruct (Qle_bool r (hi + - lo + 1));
        (eapply numeq_trans; [apply IH |]); simpl;
        unfold Qminus; rewrite Hw, Hm; ring.
    + eapply numeq_trans; [apply IH |]. simpl. unfold Qminus. ring.
Qed.

Lemma bandsOf_In (brackets : list TaxBracket) :
  forall table, bandsOf brackets = Some table ->
  forall bracket, In bracket brackets ->
  exists b, In b table /\ bandOf bracket = Some b.
Proof.
  induction brackets as [| a rest IH]; intros table Hb bracket Hin;
    [destruct Hin |].
  simpl in Hb.
  destruct (bandOf a) as [b |] eqn:Ea; [| discriminate].
  destruct (bandsOf rest) as [bs |]; [| discriminate].
  injection Hb as <-. destruct Hin as [-> | Hin].
  - exists b. split; [now left | exact Ea].
  - destruct (IH bs eq_refl bracket Hin) as (b' & Hin' & Hb').
    exists b'. split; [now right | exact Hb'].
Qed.

Lemma personalBands_ok : bandsOf TAX_RATES.PERSONAL_BRACKETS = Some personalBands.
Proof. reflexivity. Qed.

Lemma personalBands_table :
  personalBands
  = [ {| lower := 0;      upper := Some 51446;  pct := 0.2005 |};
      {| lower := 51447;  upper := Some 55867;  pct := 0.2415 |};
      {| lower := 55868;  upper := Some 102894; pct := 0.2965 |};
      {| lower := 102895; upper := Some 111733; pct := 0.3166 |};
      {| lower := 111734; upper := Some 150000; pct := 0.3716 |};
      {| lower := 150001; upper := Some 173205; pct := 0.3816 |};
      {| lower := 173206; upper := Some 220000; pct := 0.4116 |};
      {| lower := 220001; upper := Some 246752; pct := 0.4216 |};
      {| lower := 246753; upper := None;        pct := 0.4953 |} ].
Proof. reflexivity. Qed.

Lemma personalBands_contiguous : contiguous 0 personalBands.
Proof. cbn. repeat split; try reflexivity; try lra. Qed.

Lemma personalBands_nonneg : Forall nonnegBand personalBands.
Proof. repeat constructor; cbn; lra. Qed.

Arguments walkSpec : simpl never.

Lemma calculatePersonalTax_Fin (x : Q) :
  exists t, calculatePersonalTax (Fin x) = Fin t /\ t == walkSpec personalBands x.
Proof.
  destruct (numeq_Fin_inv _ _
              (bracketLoop_walkSpec _ _ personalBands_ok 0 x)) as (t & Ht & Hq).
  exists t. split; [exact Ht | lra].
Qed.

Lemma calculatePersonalTax_nonneg (x : Q) :
  exists t, calculatePersonalTax (Fin x) = Fin t /\ 0 <= t.
Proof.
  destruct (calculatePersonalTax_Fin x) as (t & Ht & Hq).
  exists t. split; [exact Ht |].
  rewrite Hq. apply walkSpec_nonneg, personalBands_nonneg.
Qed.

Lemma calculatePersonalTax_mono (x y : Q) :
  x <= y ->
  exists tx ty, calculatePersonalTax (Fin x) = Fin tx
                /\ calculatePersonalTax (Fin y) = Fin ty /\ tx <= ty.
Proof.
  intros Hxy.
  destruct (calculatePersonalTax_Fin x) as (tx & Hx & Hqx).
  destruct (calculatePersonalTax_Fin y) as (ty & Hy & Hqy).
  exists tx, ty. repeat split; auto.
  rewrite Hqx, Hqy. now apply walkSpec_mono; [apply personalBands_nonneg |].
Qed.

(** C1.  On a non-negative income [calculatePersonalTax] is the walk of the
    specification over the bracket table: each bracket in turn taxes
    [min(remaining, max - min + 1)] at its rate and passes on the rest.
    An income of zero or less owes nothing, and whatever income reaches the
    last, unbounded bracket (what exceeds 246753) is taxed at its rate
    0.4953 in full. *)
Theorem calculatePersonalTax_walks_brackets :
  (forall x : Q, 0 <= x ->
     calculatePersonalTax (Fin x) =n= Fin (walkSpec personalBands x))
  /\ (forall x : Q, x <= 0 -> calculatePersonalTax (Fin x) =n= Fin 0)
  /\ (forall x : Q, 246753 <= x ->
        calculatePersonalTax (Fin x)
        =n= (calculatePersonalTax (Fin 246753)
             + (Fin x - Fin 246753) * Fin 0.4953)%num).
Proof.
  split; [| split]; intros x Hx.
  - destruct (calculatePersonalTax_Fin x) as (t & -> & Hq). exact Hq.
  - destruct (calculatePersonalTax_Fin x) as (t & -> & Hq). simpl.
    rewrite Hq. now rewrite walkSpec_nonpos.
  - destruct (calculatePersonalTax_Fin x) as (t & -> & Hq).
    destruct (calculatePersonalTax_Fin 246753) as (t0 & -> & Hq0). simpl.
    pose proof (walkSpec_linear_on_band personalBands 0
                  {| lower := 246753; upper := None; pct := 0.4953 |}
                  personalBands_contiguous) as Hlin.
    specialize (Hlin ltac:(cbn; tauto) 246753 x).
    cbn [lower upper pct] in Hlin.
    specialize (Hlin ltac:(lra) Hx I).
    rewrite (walkSpec_compat personalBands (x - 0) x) in Hlin by lra.
    rewrite (walkSpec_compat personalBands (246753 - 0) 246753) in Hlin by lra.
    rewrite Hq, Hq0. lra.
Qed.

Lemma calculatePersonalTax_walks_brackets_witness :
  calculatePersonalTax (Fin 60000) =n= Fin (walkSpec personalBands 60000)
  /\ calculatePersonalTax (Fin (-5)) =n= Fin 0
  /\ calculatePersonalTax (Fin 300000)
     =n= (calculatePersonalTax (Fin 246753)
          + (Fin 300000 - Fin 246753) * Fin 0.4953)%num.
Proof.
  destruct calculatePersonalTax_walks_brackets as (Hwalk & Hzero & Htop).
  split; [apply Hwalk; discriminate |].
  split; [apply Hzero; discriminate | apply Htop; discriminate].
Defined.

(** C2.  From income zero on, [calculatePersonalTax] never decreases, and it
    is piecewise linear: between two incomes of the interval of a bracket
    (taken up to the point where the next bracket begins, so that the
    pieces cover every income) the tax grows by the rate of that bracket
    times the difference. *)
Theorem calculatePersonalTax_monotone_piecewise_linear :
  (forall x y : Q, 0 <= x -> x <= y ->
     calculatePersonalTax (Fin x) <=n calculatePersonalTax (Fin y))
  /\ (forall bracket, In bracket TAX_RATES.PERSONAL_BRACKETS ->
      forall x y : Q,
        min bracket <=n Fin x -> x <= y -> Fin y <=n (max bracket + Fin 1)%num ->
        (calculatePersonalTax (Fin y) - calculatePersonalTax (Fin x))%num
        =n= (rate bracket * (Fin y - Fin x))%num).
Proof.
  split.
  - intros x y _ Hxy.
    destruct (calculatePersonalTax_mono x y Hxy) as (tx & ty & -> & -> & Hle).
    now apply numle_Fin.
  - intros bracket Hin x y Hlo Hxy Hhi.
    destruct (bandsOf_In _ _ personalBands_ok bracket Hin) as (b & Hb & Eb).
    pose proof (walkSpec_linear_on_band personalBands 0 b
                  personalBands_contiguous Hb x y) as Hlin.
    destruct (calculatePersonalTax_Fin x) as (tx & -> & Hqx).
    destruct (calculatePersonalTax_Fin y) as (ty & -> & Hqy).
    rewrite (walkSpec_compat personalBands (x - 0) x) in Hlin by lra.
    rewrite (walkSpec_compat personalBands (y - 0) y) in Hlin by lra.
    rewrite <- Hqx, <- Hqy in Hlin.
    destruct bracket as [mn mx rt]. unfold bandOf in Eb. simpl in *.
    destruct mn as [lo | | |]; try discriminate.
    apply numle_Fin in Hlo.
    destruct mx as [hi | | |]; try discriminate;
      destruct rt as [p | | |]; try discriminate;
      injection Eb as <-; simpl in *.
    + apply numle_Fin in Hhi. specialize (Hlin Hlo Hxy Hhi). lra.
    + specialize (Hlin Hlo Hxy I). lra.
Qed.

Lemma calculatePersonalTax_monotone_piecewise_linear_witness :
  calculatePersonalTax (Fin 40000) <=n calculatePersonalTax (Fin 90000)
  /\ (calculatePersonalTax (Fin 55867) - calculatePersonalTax (Fin 51447))%num
     =n= (Fin 0.2415 * (Fin 55867 - Fin 51447))%num
  /\ (calculatePersonalTax (Fin 1000000) - calculatePersonalTax (Fin 246753))%num
     =n= (Fin 0.4953 * (Fin 1000000 - Fin 246753))%num.
Proof.
  destruct calculatePersonalTax_monotone_piecewise_linear as (Hmono & Hlin).
  split; [apply Hmono; discriminate |].
  split.
  - apply (Hlin {| min := Fin 51447; max := Fin 55867; rate := Fin 0.2415 |});
      [cbn; tauto | reflexivity | discriminate | reflexivity].
  - apply (Hlin {| min := Fin 246753; max := PInf; rate := Fin 0.4953 |});
      [cbn; tauto | reflexivity | discriminate | reflexivity].
Defined.

(** ** Finite arithmetic

    Operations on numbers that are finite stay finite; the lemmas below
    carry a rational value through an expression of the source. *)

Lemma add_numeq (x y : number) (a b : Q) :
  x =n= Fin a -> y =n= Fin b -> (x + y)%num =n= Fin (a + b).
Proof.
  intros Hx Hy.
  destruct (numeq_Fin_inv _ _ Hx) as (a' & -> & Ha).
  destruct (numeq_Fin_inv _ _ Hy) as (b' & -> & Hb).
  simpl. now rewrite Ha, Hb.
Qed.

Lemma sub_numeq (x y : number) (a b : Q) :
  x =n= Fin a -> y =n= Fin b -> (x - y)%num =n= Fin (a - b).
Proof.
  intros Hx Hy.
  destruct (numeq_Fin_inv _ _ Hx) as (a' & -> & Ha).
  destruct (numeq_Fin_inv _ _ Hy) as (b' & -> & Hb).
  simpl. rewrite Ha, Hb. reflexivity.
Qed.

Lemma mul_numeq (x y : number) (a b : Q) :
  x =n= Fin a -> y =n= Fin b -> (x * y)%num =n= Fin (a * b).
Proof.
  intros Hx Hy.
  destruct (numeq_Fin_inv _ _ Hx) as (a' & -> & Ha).
  destruct (numeq_Fin_inv _ _ Hy) as (b' & -> & Hb).
  simpl. now rewrite Ha, Hb.
Qed.

Lemma min_numeq (x y : number) (a b : Q) :
  x =n= Fin a -> y =n= Fin b -> Math.min x y =n= Fin (Qmin a b).
Proof.
  intros Hx Hy.
  destruct (numeq_Fin_inv _ _ Hx) as (a' & -> & Ha).
  destruct (numeq_Fin_inv _ _ Hy) as (b' & -> & Hb).
  eapply numeq_trans; [apply Math_min_Fin |]. simpl. now rewrite Ha, Hb.
Qed.

Lemma max_numeq (x y : number) (a b : Q) :
  x =n= Fin a -> y =n= Fin b -> Math.max x y =n= Fin (Qmax a b).
Proof.
  intros Hx Hy.
  destruct (numeq_Fin_inv _ _ Hx) as (a' & -> & Ha).
  destruct (numeq_Fin_inv _ _ Hy) as (b' & -> & Hb).
  eapply numeq_trans; [apply Math_max_Fin |]. simpl. now rewrite Ha, Hb.
Qed.

Lemma Fin_numeq (a : Q) : Fin a =n= Fin a.
Proof. apply numeq_refl. Qed.

Lemma calculatePersonalTax_numeq (x : number) (a : Q) :
  x =n= Fin a -> calculatePersonalTax x =n= Fin (walkSpec personalBands a).
Proof.
  intros Hx. destruct (numeq_Fin_inv _ _ Hx) as (a' & -> & Ha).
  destruct (calculatePersonalTax_Fin a') as (t & -> & Hq). simpl.
  now rewrite Hq, Ha.
Qed.

(** [finite_value]: on a goal [e =n= Fin q], find the rational value of
    [e] by following its operations and leave the equation between that
    value and [q]. *)
Ltac finite_step :=
  lazymatch goal with
  | |- Fin _ =n= _ => apply Fin_numeq
  | |- Number.add _ _ =n= _ => eapply add_numeq
  | |- Number.sub _ _ =n= _ => eapply sub_numeq
  | |- Number.mul _ _ =n= _ => eapply mul_numeq
  | |- Math.min _ _ =n= _ => eapply min_numeq
  | |- Math.max _ _ =n= _ => eapply max_numeq
  | |- calculatePersonalTax _ =n= _ => eapply calculatePersonalTax_numeq
  end.

Ltac finite_value :=
  cbv zeta; eapply numeq_trans; [solve [repeat finite_step] | unfold numeq].

Lemma numle_numeq (x y : number) (a b : Q) :
  x =n= Fin a -> y =n= Fin b -> a <= b -> x <=n y.
Proof.
  intros Hx Hy Hab.
  destruct (numeq_Fin_inv _ _ Hx) as (a' & -> & Ha).
  destruct (numeq_Fin_inv _ _ Hy) as (b' & -> & Hb).
  apply numle_Fin. lra.
Qed.

(** ** Dividend tax *)

Arguments calculatePersonalTax : simpl never.

Lemma calculateDividendTax_value (d y : Q) :
  tax (calculateDividendTax (Fin d) (Fin y))
  =n= Fin (Qmax (walkSpec personalBands (y + (d + d * 0.15))
                 - walkSpec personalBands y
                 - ((d + d * 0.15) * 0.090301 + (d + d * 0.15) * 0.029863)) 0).
Proof.
  cbv beta iota zeta delta
    [calculateDividendTax tax TAX_RATES.DIVIDEND.GROSS_UP
       TAX_RATES.DIVIDEND.FEDERAL_DTC TAX_RATES.DIVIDEND.ONTARIO_DTC].
  finite_value. reflexivity.
Qed.

(** C3.  [calculateDividendTax(d, y)] returns the dividend grossed up by
    15% and, as tax, the increment of the personal tax caused by the
    grossed-up dividend on top of [y], less the two dividend tax credits,
    floored at zero; the tax is never negative.  This holds for every
    finite [d] and [y], the non-negative ones in particular. *)
Theorem calculateDividendTax_formula (d y : Q) :
  grossedUp (calculateDividendTax (Fin d) (Fin y))
  =n= (Fin d + Fin d * Fin 0.15)%num
  /\ tax (calculateDividendTax (Fin d) (Fin y))
     =n= Math.max
           ((calculatePersonalTax (Fin y + (Fin d + Fin d * Fin 0.15))
             - calculatePersonalTax (Fin y))
            - (Fin 0.090301 + Fin 0.029863) * (Fin d + Fin d * Fin 0.15))%num
           (Fin 0)
  /\ Fin 0 <=n tax (calculateDividendTax (Fin d) (Fin y)).
Proof.
  split; [apply numeq_refl |]. split.
  - eapply numeq_trans; [apply calculateDividendTax_value |].
    apply numeq_sym. finite_value.
    apply Q.max_compat; [ring | reflexivity].
  - eapply numle_numeq;
      [apply Fin_numeq | apply calculateDividendTax_value | apply Q.le_max_r].
Qed.

(** With a negative other income the credits exceed the incremental tax,
    and the floor applies. *)
Example calculateDividendTax_floored :
  tax (calculateDividendTax (Fin 1000) (Fin (-10000))) =n= Fin 0.
Proof. vm_compute. reflexivity. Qed.

(** ** CPP contributions *)

Lemma cpp1_value (s : Q) :
  cpp1 (Fin s) =n= Fin (clamp (s - 3500) 0 (68500 - 3500) * 0.0595).
Proof.
  unfold cpp1, contributoryEarnings, clamp.
  unfold TAX_RATES.CPP.BASIC_EXEMPTION, TAX_RATES.CPP.YMPE,
    TAX_RATES.CPP.EMPLOYEE_RATE.
  finite_value. reflexivity.
Qed.

Lemma cpp2_value (s : Q) :
  cpp2 (Fin s) =n= Fin (clamp (s - 68500) 0 (73200 - 68500) * 0.04).
Proof.
  unfold cpp2, cpp2Earnings, clamp.
  unfold TAX_RATES.CPP.YAMPE, TAX_RATES.CPP.YMPE, TAX_RATES.CPP.CPP2_RATE.
  finite_value. reflexivity.
Qed.

Lemma cpp_employee_value (s : Q) :
  employee (calculateCPPContributions (Fin s))
  =n= Fin (clamp (s - 3500) 0 (68500 - 3500) * 0.0595
           + clamp (s - 68500) 0 (73200 - 68500) * 0.04).
Proof.
  unfold calculateCPPContributions, employee.
  apply add_numeq; [apply cpp1_value | apply cpp2_value].
Qed.

Lemma clamp_below (v lo hi : Q) : v <= lo -> lo <= hi -> clamp v lo hi == lo.
Proof.
  intros Hv Hlo. unfold clamp.
  rewrite (Q.max_r v lo) by exact Hv. now apply Q.min_l.
Qed.

Lemma clamp_above (v lo hi : Q) : hi <= v -> lo <= hi -> clamp v lo hi == hi.
Proof.
  intros Hv Hlo. unfold clamp.
  rewrite (Q.max_l v lo) by lra. now apply Q.min_r.
Qed.

Lemma clamp_bounds (v lo hi : Q) : lo <= hi -> lo <= clamp v lo hi <= hi.
Proof.
  intros Hlo. unfold clamp. split.
  - apply Q.min_glb; [apply Q.le_max_r | exact Hlo].
  - apply Q.le_min_r.
Qed.

(** C8.  For every salary the employee contribution is
    [clamp(s - 3500, 0, 68500 - 3500) * 0.0595
     + clamp(s - 68500, 0, 73200 - 68500) * 0.04]
    and the employer contribution is the same amount; up to the basic
    exemption of 3500 it is zero, and at a salary of 68500 it is
    [(68500 - 3500) * 0.0595] with a CPP2 part of zero. *)
Theorem calculateCPPContributions_formula :
  (forall s : Q,
     employee (calculateCPPContributions (Fin s))
     =n= Fin (clamp (s - 3500) 0 (68500 - 3500) * 0.0595
              + clamp (s - 68500) 0 (73200 - 68500) * 0.04)
     /\ employer (calculateCPPContributions (Fin s))
        = employee (calculateCPPContributions (Fin s)))
  /\ (forall s : Q, s <= 3500 ->
        employee (calculateCPPContributions (Fin s)) =n= Fin 0)
  /\ employee (calculateCPPContributions (Fin 68500))
     =n= Fin ((68500 - 3500) * 0.0595)
  /\ cpp2 (Fin 68500) =n= Fin 0.
Proof.
  split; [| split; [| split]].
  - intros s. split; [apply cpp_employee_value | reflexivity].
  - intros s Hs.
    eapply numeq_trans; [apply cpp_employee_value |]. simpl.
    rewrite (clamp_below (s - 3500)) by lra.
    rewrite (clamp_below (s - 68500)) by lra. lra.
  - vm_compute. reflexivity.
  - vm_compute. reflexivity.
Qed.

Lemma calculateCPPContributions_formula_witness :
  (employee (calculateCPPContributions (Fin 50000))
   =n= Fin (clamp (50000 - 3500) 0 (68500 - 3500) * 0.0595
            + clamp (50000 - 68500) 0 (73200 - 68500) * 0.04)
   /\ employer (calculateCPPContributions (Fin 50000))
      = employee (calculateCPPContributions (Fin 50000)))
  /\ employee (calculateCPPContributions (Fin 2000)) =n= Fin 0.
Proof.
  destruct calculateCPPContributions_formula as (Hformula & Hzero & _).
  split; [apply Hformula | apply Hzero; discriminate].
Defined.

(** C10.  The employee contribution never exceeds
    [(68500 - 3500) * 0.0595 + (73200 - 68500) * 0.04], which is 4055.50,
    and it is exactly that amount from a salary of 73200 (YAMPE) on. *)
Theorem calculateCPPContributions_ceiling :
  (forall s : Q, 0 <= s ->
     employee (calculateCPPContributions (Fin s))
     <=n Fin ((68500 - 3500) * 0.0595 + (73200 - 68500) * 0.04))
  /\ (forall s : Q, 73200 <= s ->
        employee (calculateCPPContributions (Fin s))
        =n= Fin ((68500 - 3500) * 0.0595 + (73200 - 68500) * 0.04))
  /\ (68500 - 3500) * 0.0595 + (73200 - 68500) * 0.04 == 4055.50.
Proof.
  split; [| split].
  - intros s _.
    eapply numle_numeq; [apply cpp_employee_value | apply Fin_numeq |].
    pose proof (clamp_bounds (s - 3500) 0 (68500 - 3500)).
    pose proof (clamp_bounds (s - 68500) 0 (73200 - 68500)).
    lra.
  - intros s Hs.
    eapply numeq_trans; [apply cpp_employee_value |]. simpl.
    rewrite (clamp_above (s - 3500)) by lra.
    rewrite (clamp_above (s - 68500)) by lra. reflexivity.
  - reflexivity.
Qed.

Lemma calculateCPPContributions_ceiling_witness :
  employee (calculateCPPContributions (Fin 70000))
  <=n Fin ((68500 - 3500) * 0.0595 + (73200 - 68500) * 0.04)
  /\ employee (calculateCPPContributions (Fin 120000))
     =n= Fin ((68500 - 3500) * 0.0595 + (73200 - 68500) * 0.04).
Proof.
  destruct calculateCPPContributions_ceiling as (Hmax & Hfull & _).
  split; [apply Hmax | apply Hfull]; discriminate.
Defined.

(** ** Rate lookups of the investment comparator *)

Lemma unknown_label (label a : string) (known : list string) :
  ~ In label (a :: known) -> (label =? a)%string = false /\ ~ In label known.
Proof.
  intros H. split.
  - destruct (String.eqb_spec label a) as [-> | _]; [| reflexivity].
    exfalso. apply H. now left.
  - intros Hin. apply H. now right.
Qed.

(** C4, as the code has it.  A label outside the four enumerated ones is
    not rejected: every lookup returns the rate of its [default] arm,
    0.2028 (dividend rate at withdrawal), 0.39 (dividend rate now), 0.2965
    (personal rate) and 0.4116 (refund rate). *)
Theorem rate_lookups_default (label : string) :
  ~ In label incomeLabels ->
  dividendRateLookup label true = Returns (Fin 0.2028)
  /\ dividendRateLookup label false = Returns (Fin 0.39)
  /\ personalTaxRateLookup label = Returns (Fin 0.2965)
  /\ rrspRefundRateLookup label = Returns (Fin 0.4116).
Proof.
  intros H. unfold incomeLabels in H.
  destruct (unknown_label _ _ _ H) as [E1 H1].
  destruct (unknown_label _ _ _ H1) as [E2 H2].
  destruct (unknown_label _ _ _ H2) as [E3 H3].
  destruct (unknown_label _ _ _ H3) as [E4 _].
  unfold dividendRateLookup, personalTaxRateLookup, rrspRefundRateLookup,
    Investment.getDividendRate, Investment.getPersonalTaxRate,
    Investment.getRrspRefundRate.
  rewrite E1, E2, E3, E4. repeat split.
Qed.

Lemma rate_lookups_default_witness :
  dividendRateLookup "Over $1M" true = Returns (Fin 0.2028)
  /\ dividendRateLookup "Over $1M" false = Returns (Fin 0.39)
  /\ personalTaxRateLookup "Over $1M" = Returns (Fin 0.2965)
  /\ rrspRefundRateLookup "Over $1M" = Returns (Fin 0.4116).
Proof.
  apply (rate_lookups_default "Over $1M").
  simpl. intros [H | [H | [H | [H | []]]]]; discriminate H.
Defined.

(** C4, as stated, fails: the label ["Over $1M"] is outside the enumerated
    set, and none of the lookups ends with [InvalidInput] on it. *)
Lemma rate_lookups_unknown_label_not_rejected :
  ~ In "Over $1M"%string incomeLabels
  /\ dividendRateLookup "Over $1M" true <> Throws InvalidInput
  /\ dividendRateLookup "Over $1M" false <> Throws InvalidInput
  /\ personalTaxRateLookup "Over $1M" <> Throws InvalidInput
  /\ rrspRefundRateLookup "Over $1M" <> Throws InvalidInput.
Proof.
  split.
  - simpl. intros [H | [H | [H | [H | []]]]]; discriminate H.
  - repeat split; discriminate.
Qed.

(** ** Effective tax rate of the investment comparator *)

(** Where the gains are not zero, the rate shown is the total tax over the
    gains, as a percentage with one decimal. *)
Lemma ratePercent_value (totalTax gains : Q) :
  ~ gains == 0 ->
  Investment.ratePercent (Fin totalTax) (Fin gains)
  = (toFixed1 (Fin (totalTax / gains * 100)) ++ "%")%string.
Proof.
  intros H. unfold Investment.ratePercent. simpl.
  destruct (gains ?= 0) eqn:E; try reflexivity.
  apply Qeq_alt in E. contradiction.
Qed.

(** C5, at a time horizon of 0 years.  The gains of every vehicle are zero
    and the division is not guarded: each effective tax rate is a positive
    tax over zero and is shown as ["Infinity%"]. *)
Theorem effectiveTaxRate_unguarded_at_zero_years :
  map Investment.effectiveTaxRate
      (Investment.calculateInvestmentStrategies
         {| Investment.investmentAmount := Fin 100000;
            Investment.rrspRoom := Fin 50000;
            Investment.currentIncomeLevel := "$100-200K";
            Investment.withdrawalIncomeLevel := "$50-100K";
            Investment.timeline := "0 years" |})
  = [ "Infinity%"; "Infinity%"; "Infinity%" ]%string.
Proof. vm_compute. reflexivity. Qed.

(** With nothing to invest the same division is [0 / 0]. *)
Lemma effectiveTaxRate_unguarded_at_zero_amount :
  map Investment.effectiveTaxRate
      (Investment.calculateInvestmentStrategies
         {| Investment.investmentAmount := Fin 0;
            Investment.rrspRoom := Fin 50000;
            Investment.currentIncomeLevel := "$100-200K";
            Investment.withdrawalIncomeLevel := "$50-100K";
            Investment.timeline := "10 years" |})
  = [ "NaN%"; "NaN%"; "NaN%" ]%string.
Proof. vm_compute. reflexivity. Qed.

(** The salary / dividend comparator guards the same kind of division:
    with nothing withdrawn its effective rate is 0. *)
Lemma effectivePersonalRate_guarded (netBusinessIncome : number) :
  SmartSplit.Locals.effectivePersonalRate
    (SmartSplit.amounts (Fin 0) (Fin 0) netBusinessIncome) = Fin 0.
Proof. reflexivity. Qed.

(** ** Formatting and parsing whole dollars *)

Lemma digitChar_spec (d : Z) :
  (0 <= d < 10)%Z -> plainDigit (digitChar d) /\ digitValue (digitChar d) = d.
Proof.
  intros H.
  assert (d = 0 \/ d = 1 \/ d = 2 \/ d = 3 \/ d = 4 \/ d = 5 \/ d = 6
          \/ d = 7 \/ d = 8 \/ d = 9)%Z as Hd by lia.
  unfold plainDigit.
  repeat (destruct Hd as [-> | Hd]); try subst d; repeat split; reflexivity.
Qed.

Lemma digitsFrom_step (fuel : nat) (n : Z) (acc : list ascii) :
  digitsFrom (S fuel) n acc
  = if (n <? 10)%Z then digitChar (n mod 10) :: acc
    else digitsFrom fuel (n / 10) (digitChar (n mod 10) :: acc).
Proof. reflexivity. Qed.

Lemma digitsFrom_plain (fuel : nat) :
  forall n acc, Forall plainDigit acc -> Forall plainDigit (digitsFrom fuel n acc).
Proof.
  induction fuel as [| fuel IH]; intros n acc Hacc; [exact Hacc |].
  rewrite digitsFrom_step.
  assert (Forall plainDigit (digitChar (n mod 10) :: acc)) as Hacc'.
  { constructor; [| exact Hacc].
    apply digitChar_spec, Z.mod_pos_bound. lia. }
  destruct (n <? 10)%Z; [exact Hacc' | now apply IH].
Qed.

Lemma readDigits_digit (c : ascii) (rest : list ascii) (v : Z) (k : nat) :
  isDigit c = true ->
  readDigits (c :: rest) v k = readDigits rest (10 * v + digitValue c)%Z (S k).
Proof. intros H. simpl. now rewrite H. Qed.

Lemma readDigits_last_digit (n : Z) (acc s : list ascii) :
  (0 <= n < 10)%Z ->
  readDigits ((digitChar (n mod 10) :: acc) ++ s) 0%Z 0%nat
  = readDigits (acc ++ s) n 1%nat.
Proof.
  intros Hn. rewrite Z.mod_small by lia.
  destruct (digitChar_spec n Hn) as ((Hd & _) & Hv).
  rewrite <- app_comm_cons, readDigits_digit by exact Hd.
  rewrite Hv. reflexivity.
Qed.

Lemma readDigits_digitsFrom (fuel : nat) :
  forall n acc s,
    (0 <= n < 2 ^ Z.of_nat (S fuel))%Z ->
    exists k, readDigits (digitsFrom (S fuel) n acc ++ s) 0%Z 0%nat
              = readDigits (acc ++ s) n (S k).
Proof.
  induction fuel as [| fuel IH]; intros n acc s Hn; rewrite digitsFrom_step.
  - assert (n < 10)%Z as Hlt by (change (2 ^ Z.of_nat 1)%Z with 2%Z in Hn; lia).
    apply Z.ltb_lt in Hlt as Hb. rewrite Hb.
    exists 0%nat. apply readDigits_last_digit. lia.
  - destruct (n <? 10)%Z eqn:Hb.
    + apply Z.ltb_lt in Hb. exists 0%nat. apply readDigits_last_digit. lia.
    + apply Z.ltb_ge in Hb.
      assert (0 <= n / 10 < 2 ^ Z.of_nat (S fuel))%Z as Hdiv.
      { split; [apply Z.div_pos; lia |].
        apply Z.div_lt_upper_bound; [lia |].
        replace (Z.of_nat (S (S fuel))) with (Z.succ (Z.of_nat (S fuel))) in Hn
          by lia.
        rewrite Z.pow_succ_r in Hn by lia. lia. }
      destruct (IH (n / 10)%Z (digitChar (n mod 10) :: acc) s Hdiv) as (k & Hk).
      exists (S k). rewrite Hk.
      destruct (digitChar_spec (n mod 10)%Z
                  ltac:(apply Z.mod_pos_bound; lia)) as ((Hd & _) & Hv).
      rewrite <- app_comm_cons, readDigits_digit by exact Hd.
      rewrite Hv.
      replace (10 * (n / 10) + n mod 10)%Z with n
        by (rewrite <- Z.div_mod; lia).
      reflexivity.
Qed.

Lemma digits_plain (n : Z) : Forall plainDigit (digits n).
Proof. apply digitsFrom_plain. constructor. Qed.

Lemma readDigits_digits (n : Z) :
  (0 <= n)%Z ->
  exists k, readDigits (digits n) 0%Z 0%nat = (n, S k, []).
Proof.
  intros Hn. unfold digits.
  destruct (readDigits_digitsFrom (Z.to_nat (Z.log2 n)) n [] []) as (k & Hk).
  - split; [exact Hn |].
    rewrite Nat2Z.inj_succ, Z2Nat.id by apply Z.log2_nonneg.
    destruct (Z.eq_dec n 0) as [-> | Hne]; [reflexivity |].
    apply Z.log2_spec. lia.
  - exists k. rewrite app_nil_r in Hk. exact Hk.
Qed.


Lemma stripDollarComma_list (l : list ascii) :
  stripDollarComma (string_of_list_ascii l)
  = string_of_list_ascii (filter keepChar l).
Proof.
  induction l as [| c l IH]; [reflexivity |].
  simpl. unfold keepChar at 1.
  destruct (Ascii.eqb c "$" || Ascii.eqb c ","); simpl; now rewrite IH.
Qed.

Lemma filter_group3_upto (n : nat) :
  forall l, (List.length l <= n)%nat ->
            filter keepChar (group3 l) = filter keepChar l.
Proof.
  induction n as [| n IH]; intros l Hl.
  - destruct l; [reflexivity | simpl in Hl; lia].
  - destruct l as [| a [| b [| c [| d rest]]]]; try reflexivity.
    change (group3 (a :: b :: c :: d :: rest))
      with (a :: b :: c :: ","%char :: group3 (d :: rest)).
    change (a :: b :: c :: ","%char :: group3 (d :: rest))
      with ([a; b; c] ++ ","%char :: group3 (d :: rest)).
    change (a :: b :: c :: d :: rest) with ([a; b; c] ++ d :: rest).
    rewrite !filter_app. f_equal.
    change (filter keepChar (","%char :: group3 (d :: rest)))
      with (filter keepChar (group3 (d :: rest))).
    apply IH. simpl in *. lia.
Qed.

Lemma filter_plain (l : list ascii) :
  Forall plainDigit l -> filter keepChar l = l.
Proof.
  induction 1 as [| c l (_ & _ & H1 & H2 & _) _ IH]; [reflexivity |].
  simpl. unfold keepChar at 1. rewrite H1, H2. simpl. now rewrite IH.
Qed.

Lemma filter_grouped (n : Z) : filter keepChar (grouped n) = digits n.
Proof.
  unfold grouped.
  rewrite filter_rev, (filter_group3_upto _ _ (Nat.le_refl _)).
  rewrite filter_rev, rev_involutive.
  apply filter_plain, digits_plain.
Qed.

Lemma Qfloor_scaled_half (k scale : Z) :
  Qfloor (Qabs (inject_Z k) * inject_Z scale + (1 # 2)) = (Z.abs k * scale)%Z.
Proof.
  assert (Qabs (inject_Z k) * inject_Z scale + (1 # 2)
          == (Z.abs k * scale * 2 + 1) # 2) as ->.
  { unfold Qabs, inject_Z, Qmult, Qplus, Qeq. simpl. ring. }
  unfold Qfloor. symmetry.
  apply (Z.div_unique _ _ _ 1%Z); lia.
Qed.

Lemma Qfloor_half (k : Z) : Qfloor (inject_Z k + (1 # 2)) = k.
Proof.
  assert (inject_Z k + (1 # 2) == (k * 2 + 1) # 2) as ->.
  { unfold inject_Z, Qplus, Qeq. simpl. ring. }
  unfold Qfloor. symmetry.
  apply (Z.div_unique _ _ _ 1%Z); lia.
Qed.

Lemma signChars_inject_Z (k : Z) :
  signChars (inject_Z k) = if (0 <=? k)%Z then [] else ["-"%char].
Proof.
  unfold signChars, Qle_bool, inject_Z. simpl. now rewrite Z.mul_1_r.
Qed.

(** A whole number is printed as its sign and its grouped digits. *)
Lemma toLocaleString_integer (k : Z) :
  toLocaleString (Fin (inject_Z k))
  = string_of_list_ascii
      ((if (0 <=? k)%Z then [] else ["-"%char]) ++ grouped (Z.abs k)).
Proof.
  unfold toLocaleString.
  change 1000 with (inject_Z 1000).
  rewrite Qfloor_scaled_half, signChars_inject_Z.
  rewrite Z.div_mul, Z.mod_mul by lia.
  change (fractionDigits 0) with (@nil ascii).
  now rewrite app_nil_r.
Qed.

Lemma parseFloat_signed_digits (negative : bool) (ds : list ascii) (n : Z) (k : nat) :
  readDigits ds 0%Z 0%nat = (n, S k, []) ->
  Forall plainDigit ds ->
  parseFloat (string_of_list_ascii ((if negative then ["-"%char] else []) ++ ds))
  =n= Fin (inject_Z (if negative then - n else n)).
Proof.
  intros Hread Hplain.
  destruct ds as [| c rest]; [discriminate Hread |].
  inversion Hplain as [| ? ? (Hd & Hw & _ & _ & Hminus & Hplus & HI) _]; subst.
  unfold parseFloat. rewrite list_ascii_of_string_of_list_ascii.
  destruct negative.
  - change (trimStart (["-"%char] ++ c :: rest)) with ("-"%char :: c :: rest).
    change (readSign ("-"%char :: c :: rest)) with (true, c :: rest).
    cbv iota beta.
    change (startsWith (list_ascii_of_string "Infinity") (c :: rest))
      with (Ascii.eqb "I" c && startsWith (list_ascii_of_string "nfinity") rest).
    rewrite HI, Hread. simpl.
    rewrite inject_Z_opp. field.
  - change ([] ++ c :: rest) with (c :: rest).
    assert (trimStart (c :: rest) = c :: rest) as -> by (simpl; now rewrite Hw).
    assert (readSign (c :: rest) = (false, c :: rest)) as ->
        by (simpl; now rewrite Hminus, Hplus).
    cbv iota beta.
    change (startsWith (list_ascii_of_string "Infinity") (c :: rest))
      with (Ascii.eqb "I" c && startsWith (list_ascii_of_string "nfinity") rest).
    rewrite HI, Hread. simpl. field.
Qed.

(** What a cash field shows is read back as the rounded amount. *)
Lemma cashOf_roundedDollars (q : Q) :
  cashOf (roundedDollars (Fin q)) =n= Math.round (Fin q).
Proof.
  unfold cashOf, roundedDollars, dollars, Math.round.
  set (k := Qfloor (q + (1 # 2))).
  rewrite toLocaleString_integer.
  change ("$" ++ string_of_list_ascii
                   ((if (0 <=? k)%Z then [] else ["-"%char]) ++ grouped (Z.abs k)))%string
    with (string_of_list_ascii
            ("$"%char :: (if (0 <=? k)%Z then [] else ["-"%char]) ++ grouped (Z.abs k))).
  rewrite stripDollarComma_list.
  change (filter keepChar
            ("$"%char :: (if (0 <=? k)%Z then [] else ["-"%char]) ++ grouped (Z.abs k)))
    with (filter keepChar
            ((if (0 <=? k)%Z then [] else ["-"%char]) ++ grouped (Z.abs k))).
  rewrite filter_app, filter_grouped.
  destruct (readDigits_digits (Z.abs k) (Z.abs_nonneg k)) as (n & Hn).
  destruct (0 <=? k)%Z eqn:Hk.
  - apply Z.leb_le in Hk.
    change (filter keepChar []) with (@nil ascii).
    eapply numeq_trans;
      [apply (parseFloat_signed_digits false _ _ _ Hn (digits_plain _)) |].
    simpl. rewrite Z.abs_eq by lia. reflexivity.
  - apply Z.leb_gt in Hk.
    change (filter keepChar ["-"%char]) with ["-"%char].
    eapply numeq_trans;
      [apply (parseFloat_signed_digits true _ _ _ Hn (digits_plain _)) |].
    simpl. rewrite Z.abs_neq by lia. rewrite Z.opp_involutive. reflexivity.
Qed.


(** ** Sorting with a comparator *)

Section ArraySort.

Context {A : Type} (comparefn : A -> A -> number).

Lemma insertSorted_perm (x : A) (l : list A) :
  Permutation (Investment.insertSorted comparefn x l) (x :: l).
Proof.
  induction l as [| e rest IH]; cbn [Investment.insertSorted];
    [apply Permutation_refl |].
  destruct (comparefn e x >? Fin 0)%num; [apply Permutation_refl |].
  eapply Permutation_trans; [apply perm_skip, IH | apply perm_swap].
Qed.

Lemma fold_insertSorted_perm (l : list A) :
  forall sorted,
    Permutation
      (fold_left (fun sorted x => Investment.insertSorted comparefn x sorted) l sorted)
      (sorted ++ l).
Proof.
  induction l as [| x l IH]; intros sorted; simpl.
  - rewrite app_nil_r. apply Permutation_refl.
  - eapply Permutation_trans; [apply IH |].
    eapply Permutation_trans;
      [apply Permutation_app_tail, insertSorted_perm |].
    simpl. apply Permutation_cons_app, Permutation_refl.
Qed.

Lemma Array_sort_perm (l : list A) :
  Permutation (Investment.Array_sort comparefn l) l.
Proof. apply (fold_insertSorted_perm l []). Qed.

(** The comparator is the difference of a key, as in [cashB - cashA], on
    the elements that are [good]. *)
Context (key : A -> Q) (good : A -> Prop).
Hypothesis comparefn_key :
  forall a b, good a -> good b -> comparefn a b =n= Fin (key b - key a).

Definition descending (a b : A) : Prop := key b <= key a.

Lemma insertSorted_sorted (x : A) (l : list A) :
  good x -> Forall good l ->
  StronglySorted descending l ->
  StronglySorted descending (Investment.insertSorted comparefn x l).
Proof.
  intros Hx Hl Hs.
  induction Hs as [| e rest Hrest IH He]; cbn [Investment.insertSorted].
  - constructor; constructor.
  - inversion Hl as [| ? ? Hge Hgrest]; subst.
    destruct (numeq_Fin_inv _ _ (comparefn_key e x Hge Hx)) as (t & Ht & Hq).
    rewrite Ht. unfold Number.gtb, Number.ltb.
    destruct (Qle_bool t 0) eqn:E; simpl.
    + apply Qle_bool_iff in E.
      constructor; [now apply IH |].
      apply (Permutation_Forall (Permutation_sym (insertSorted_perm x rest))).
      constructor; [unfold descending; lra | exact He].
    + apply Qle_bool_false in E.
      constructor; [now constructor |].
      constructor; [unfold descending; lra |].
      eapply Forall_impl; [| exact He].
      unfold descending. intros a Ha. lra.
Qed.

Lemma fold_insertSorted_sorted (l : list A) :
  forall sorted,
    Forall good l -> Forall good sorted -> StronglySorted descending sorted ->
    StronglySorted descending
      (fold_left (fun sorted x => Investment.insertSorted comparefn x sorted) l sorted).
Proof.
  induction l as [| x l IH]; intros sorted Hl Hgood Hs; simpl; [exact Hs |].
  inversion Hl as [| ? ? Hx Hl']; subst.
  apply IH; [exact Hl' | | now apply insertSorted_sorted].
  apply (Permutation_Forall (Permutation_sym (insertSorted_perm x sorted))).
  now constructor.
Qed.

Lemma Array_sort_sorted (l : list A) :
  Forall good l -> StronglySorted descending (Investment.Array_sort comparefn l).
Proof.
  intros Hl. apply fold_insertSorted_sorted; [exact Hl | constructor | constructor].
Qed.

End ArraySort.

(** ** Ranking of the investment strategies *)


Lemma byCashDescending_key (a b : Investment.Ranked) :
  finiteCash a -> finiteCash b ->
  Investment.byCashDescending a b =n= Fin (cashKey b - cashKey a).
Proof.
  intros (qa & Ha) (qb & Hb).
  unfold Investment.byCashDescending, cashKey. rewrite Ha, Hb.
  apply numeq_refl.
Qed.

Lemma dollars_available (x : number) (tail : string) :
  ((dollars x ++ tail)%string =? "Not Available")%string = false.
Proof. reflexivity. Qed.

Lemma roundedDollars_available (x : number) :
  (roundedDollars x =? "Not Available")%string = false.
Proof. reflexivity. Qed.

Lemma entry_addRecommendations (l : list Investment.Ranked) :
  map Investment.entry (Investment.addRecommendations l) = map Investment.entry l.
Proof.
  destruct l as [| first others]; [reflexivity |].
  simpl. f_equal. rewrite map_map. reflexivity.
Qed.

Lemma entry_finalStrategies (l : list Investment.Strategy) :
  map Investment.entry (Investment.finalStrategies l) = l.
Proof.
  unfold Investment.finalStrategies. rewrite map_map. apply map_id.
Qed.

(** A ranked entry is marked optimal or told what it lacks: it is never
    told that it is not applicable. *)
Lemma recommendation_of_ranked (available : list Investment.Ranked) :
  Forall (fun s =>
            Investment.recommendation s
            <> "Not applicable - No RRSP contribution room available"%string)
         (Investment.addRecommendations available).
Proof.
  destruct available as [| first others]; [constructor |].
  cbn [Investment.addRecommendations]. constructor; [discriminate |].
  apply Forall_map. apply Forall_forall. intros e _. discriminate.
Qed.

Lemma rrspStrategy_without_room (input : Investment.Input) (a : Investment.Locals.Amounts) :
  (Investment.rrspRoom input >? Fin 0)%num = false ->
  Investment.rrspStrategy input a
  = {| Investment.strategy := "RRSP Strategy";
       Investment.initialInvestment := "Not Available";
       Investment.finalValue := "Not Available";
       Investment.totalTaxPaid := "Not Available";
       Investment.finalCashInPocket := "Not Available";
       Investment.effectiveTaxRate := "N/A";
       Investment.auditRisk := "N/A" |}.
Proof. intros H. unfold Investment.rrspStrategy. now rewrite H. Qed.

(** C6.  With [rrspRoom = 0] the RRSP entry carries ["Not Available"] in
    its four cash fields; the strategies that are ranked are the corporate
    and the personal one only, and the RRSP entry follows them with the
    recommendation ["Not applicable - No RRSP contribution room available"],
    which none of the ranked entries carries. *)
Theorem rrsp_not_available_without_room (input : Investment.Input) :
  Investment.rrspRoom input =n= Fin 0 ->
  exists corporate personal rrsp ranked,
    Investment.calculateInvestmentStrategies input = [corporate; personal; rrsp]
    /\ Investment.strategy corporate = "Corporate Investment"%string
    /\ Investment.strategy personal = "Personal Investment"%string
    /\ Investment.strategy rrsp = "RRSP Strategy"%string
    /\ Investment.initialInvestment rrsp = "Not Available"%string
    /\ Investment.finalValue rrsp = "Not Available"%string
    /\ Investment.totalTaxPaid rrsp = "Not Available"%string
    /\ Investment.finalCashInPocket rrsp = "Not Available"%string
    /\ Permutation
         (map Investment.entry
            (Investment.availableStrategies
               (Investment.finalStrategies [corporate; personal; rrsp])))
         [corporate; personal]
    /\ Investment.sortedStrategies input
       = ranked ++ [ {| Investment.entry := rrsp;
                        Investment.riskLevel := "Medium-High";
                        Investment.recommendation :=
                          "Not applicable - No RRSP contribution room available" |} ]
    /\ Permutation (map Investment.entry ranked) [corporate; personal]
    /\ Forall (fun s =>
                 Investment.recommendation s
                 <> "Not applicable - No RRSP contribution room available"%string)
              ranked.
Proof.
  intros Hroom.
  assert ((Investment.rrspRoom input >? Fin 0)%num = false) as Hgt.
  { destruct (numeq_Fin_inv _ _ Hroom) as (r & -> & Hr).
    unfold Number.gtb, Number.ltb.
    assert (Qle_bool r 0 = true) as -> by (apply Qle_bool_iff; lra).
    reflexivity. }
  set (a := Investment.amounts input).
  exists (Investment.corporateStrategy a), (Investment.personalStrategy a),
    (Investment.rrspStrategy input a).
  pose proof (rrspStrategy_without_room input a Hgt) as Hrrsp.
  assert (Havail :
            Investment.availableStrategies
              (Investment.finalStrategies
                 [Investment.corporateStrategy a; Investment.personalStrategy a;
                  Investment.rrspStrategy input a])
            = Investment.Array_sort Investment.byCashDescending
                (Investment.finalStrategies
                   [Investment.corporateStrategy a; Investment.personalStrategy a])).
  { rewrite Hrrsp. reflexivity. }
  assert (Hperm :
            Permutation
              (map Investment.entry
                 (Investment.Array_sort Investment.byCashDescending
                    (Investment.finalStrategies
                       [Investment.corporateStrategy a;
                        Investment.personalStrategy a])))
              [Investment.corporateStrategy a; Investment.personalStrategy a]).
  { eapply Permutation_trans;
      [apply (Permutation_map Investment.entry (Array_sort_perm _ _)) |].
    rewrite entry_finalStrategies. apply Permutation_refl. }
  eexists. repeat split; try (rewrite Hrrsp; reflexivity).
  - rewrite Havail. exact Hperm.
  - unfold Investment.sortedStrategies.
    fold a. change (Investment.calculateInvestmentStrategies input)
      with [Investment.corporateStrategy a; Investment.personalStrategy a;
            Investment.rrspStrategy input a].
    rewrite Havail. rewrite Hrrsp. reflexivity.
  - rewrite entry_addRecommendations. exact Hperm.
  - apply recommendation_of_ranked.
Qed.

Lemma rrsp_not_available_without_room_witness :
  exists corporate personal rrsp ranked,
    Investment.calculateInvestmentStrategies
      {| Investment.investmentAmount := Fin 100000;
         Investment.rrspRoom := Fin 0;
         Investment.currentIncomeLevel := "$100-200K";
         Investment.withdrawalIncomeLevel := "$50-100K";
         Investment.timeline := "10 years" |}
    = [corporate; personal; rrsp]
    /\ Investment.strategy corporate = "Corporate Investment"%string
    /\ Investment.strategy personal = "Personal Investment"%string
    /\ Investment.strategy rrsp = "RRSP Strategy"%string
    /\ Investment.initialInvestment rrsp = "Not Available"%string
    /\ Investment.finalValue rrsp = "Not Available"%string
    /\ Investment.totalTaxPaid rrsp = "Not Available"%string
    /\ Investment.finalCashInPocket rrsp = "Not Available"%string
    /\ Permutation
         (map Investment.entry
            (Investment.availableStrategies
               (Investment.finalStrategies [corporate; personal; rrsp])))
         [corporate; personal]
    /\ Investment.sortedStrategies
         {| Investment.investmentAmount := Fin 100000;
            Investment.rrspRoom := Fin 0;
            Investment.currentIncomeLevel := "$100-200K";
            Investment.withdrawalIncomeLevel := "$50-100K";
            Investment.timeline := "10 years" |}
       = ranked ++ [ {| Investment.entry := rrsp;
                        Investment.riskLevel := "Medium-High";
                        Investment.recommendation :=
                          "Not applicable - No RRSP contribution room available" |} ]
    /\ Permutation (map Investment.entry ranked) [corporate; personal]
    /\ Forall (fun s =>
                 Investment.recommendation s
                 <> "Not applicable - No RRSP contribution room available"%string)
              ranked.
Proof.
  apply (rrsp_not_available_without_room
           {| Investment.investmentAmount := Fin 100000;
              Investment.rrspRoom := Fin 0;
              Investment.currentIncomeLevel := "$100-200K";
              Investment.withdrawalIncomeLevel := "$50-100K";
              Investment.timeline := "10 years" |}).
  reflexivity.
Defined.

(** *** Finite cash amounts *)

Lemma isFinite_Fin (x : number) :
  Number.isFinite x = true -> exists q, x = Fin q.
Proof. destruct x; try discriminate. intros _. now exists q. Qed.

Lemma isFinite_add (x y : number) :
  Number.isFinite x = true -> Number.isFinite y = true ->
  Number.isFinite (x + y) = true.
Proof. now destruct x, y. Qed.

Lemma isFinite_sub (x y : number) :
  Number.isFinite x = true -> Number.isFinite y = true ->
  Number.isFinite (x - y) = true.
Proof. now destruct x, y. Qed.

Lemma isFinite_mul (x y : number) :
  Number.isFinite x = true -> Number.isFinite y = true ->
  Number.isFinite (x * y) = true.
Proof. now destruct x, y. Qed.

Lemma isFinite_min (x y : number) :
  Number.isFinite x = true -> Number.isFinite y = true ->
  Number.isFinite (Math.min x y) = true.
Proof.
  destruct x, y; try discriminate. intros _ _.
  now rewrite Math_min_Fin_eq.
Qed.

Lemma isFinite_pow (years : Z) : Number.isFinite (Math.pow 1.07 (Some years)) = true.
Proof. reflexivity. Qed.

Lemma isFinite_getDividendRate (income : string) (isRetirement : bool) :
  Number.isFinite (Investment.getDividendRate income isRetirement) = true.
Proof.
  unfold Investment.getDividendRate.
  destruct isRetirement;
    repeat match goal with |- context [(?a =? ?b)%string] =>
             destruct (a =? b)%string end; reflexivity.
Qed.

Lemma isFinite_getPersonalTaxRate (income : string) :
  Number.isFinite (Investment.getPersonalTaxRate income) = true.
Proof.
  unfold Investment.getPersonalTaxRate.
  repeat match goal with |- context [(?a =? ?b)%string] =>
           destruct (a =? b)%string end; reflexivity.
Qed.

Lemma isFinite_getRrspRefundRate (income : string) :
  Number.isFinite (Investment.getRrspRefundRate income) = true.
Proof.
  unfold Investment.getRrspRefundRate.
  repeat match goal with |- context [(?a =? ?b)%string] =>
           destruct (a =? b)%string end; reflexivity.
Qed.

Ltac finite_amount :=
  repeat first
    [ reflexivity
    | apply isFinite_sub | apply isFinite_add | apply isFinite_mul
    | apply isFinite_min | apply isFinite_pow
    | apply isFinite_getDividendRate | apply isFinite_getPersonalTaxRate
    | apply isFinite_getRrspRefundRate ].

(** With finite amounts and a timeline that reads as a number of years,
    the cash of every vehicle is a finite number. *)
Lemma finalCash_finite (input : Investment.Input) (amount room : Q) (years : Z) :
  Investment.investmentAmount input = Fin amount ->
  Investment.rrspRoom input = Fin room ->
  parseInt (String_replace (Investment.timeline input) " years" "") = Some years ->
  Number.isFinite (Investment.Locals.corpFinalCash (Investment.amounts input)) = true
  /\ Number.isFinite (Investment.Locals.personalFinalCash (Investment.amounts input)) = true
  /\ Number.isFinite (Investment.Locals.rrspFinalCash (Investment.amounts input)) = true.
Proof.
  intros Ha Hr Hy.
  unfold Investment.amounts.
  cbn [Investment.Locals.corpFinalCash Investment.Locals.personalFinalCash
         Investment.Locals.rrspFinalCash].
  rewrite Ha, Hr, Hy.
  repeat split; finite_amount.
Qed.

Lemma finiteCash_roundedDollars (s : Investment.Ranked) (x : number) :
  Investment.finalCashInPocket (Investment.entry s) = roundedDollars x ->
  Number.isFinite x = true ->
  finiteCash s.
Proof.
  intros Hs Hx. destruct (isFinite_Fin _ Hx) as (q & ->).
  unfold finiteCash, Investment.cash. rewrite Hs.
  destruct (numeq_Fin_inv _ _ (cashOf_roundedDollars q)) as (t & Ht & _).
  now exists t.
Qed.

Lemma cash_recommend (text : string) (s : Investment.Ranked) :
  Investment.cash (Investment.recommend text s) = Investment.cash s.
Proof. reflexivity. Qed.

Lemma Forall_entry_perm (P : Investment.Strategy -> Prop)
  (l l' : list Investment.Ranked) :
  Permutation (map Investment.entry l') (map Investment.entry l) ->
  Forall (fun s => P (Investment.entry s)) l ->
  Forall (fun s => P (Investment.entry s)) l'.
Proof.
  intros Hperm Hl.
  apply Forall_map. apply Forall_map in Hl.
  exact (Permutation_Forall (Permutation_sym Hperm) Hl).
Qed.

(** The ranking of a non-empty list of strategies with finite cash. *)
Lemma ranking_of_finite (available : list Investment.Ranked) :
  Forall finiteCash available -> available <> [] ->
  exists first others,
    Investment.addRecommendations
      (Investment.Array_sort Investment.byCashDescending available)
    = first :: others
    /\ Permutation (map Investment.entry (first :: others))
                   (map Investment.entry available)
    /\ Investment.recommendation first = Investment.optimalText
    /\ Forall (fun s =>
                 Investment.cash s <=n Investment.cash first
                 /\ Investment.recommendation s
                    = Investment.considerText
                        (Investment.cash first - Investment.cash s)
                 /\ Fin 0 <=n (Investment.cash first - Investment.cash s)%num)
              others.
Proof.
  intros Hfin Hne.
  pose proof (Array_sort_perm Investment.byCashDescending available) as Hperm.
  pose proof (Array_sort_sorted Investment.byCashDescending cashKey finiteCash
                byCashDescending_key available Hfin) as Hsorted.
  pose proof (Permutation_Forall (Permutation_sym Hperm) Hfin) as Hfin'.
  destruct (Investment.Array_sort Investment.byCashDescending available)
    as [| top rest] eqn:E.
  - apply Permutation_nil in Hperm. contradiction.
  - exists (Investment.recommend Investment.optimalText top).
    eexists. split; [reflexivity |]. split; [| split; [reflexivity |]].
    + change (Permutation
                (map Investment.entry
                   (Investment.addRecommendations (top :: rest)))
                (map Investment.entry available)).
      rewrite entry_addRecommendations.
      now apply Permutation_map.
    + apply Forall_map.
      inversion Hsorted as [| ? ? _ Htop]; subst.
      inversion Hfin' as [| ? ? (qf & Hqf) Hrest]; subst.
      rewrite Forall_forall in *. intros e He.
      destruct (Hrest e He) as (qe & Hqe).
      specialize (Htop e He). unfold descending, cashKey in Htop.
      rewrite !cash_recommend. cbn [Investment.recommendation Investment.recommend].
      rewrite Hqf, Hqe in *.
      repeat split.
      * now apply numle_Fin.
      * apply numle_Fin. lra.
Qed.

Lemma isAvailable_rounded (s : Investment.Strategy) (x : number) :
  Investment.finalCashInPocket s = roundedDollars x ->
  Investment.isAvailable (Investment.finalStrategy s) = true.
Proof.
  intros H. unfold Investment.isAvailable. cbn [Investment.entry Investment.finalStrategy].
  now rewrite H, roundedDollars_available.
Qed.

Lemma finiteCash_final (s : Investment.Strategy) (x : number) :
  Investment.finalCashInPocket s = roundedDollars x ->
  Number.isFinite x = true ->
  finiteCash (Investment.finalStrategy s).
Proof. intros H. now apply finiteCash_roundedDollars. Qed.

Lemma rrspStrategy_with_room (input : Investment.Input) (a : Investment.Locals.Amounts) :
  (Investment.rrspRoom input >? Fin 0)%num = true ->
  Investment.finalCashInPocket (Investment.rrspStrategy input a)
  = roundedDollars (Investment.Locals.rrspFinalCash a).
Proof. intros H. unfold Investment.rrspStrategy. now rewrite H. Qed.

Lemma numle_compat (x x' y y' : number) :
  x =n= x' -> y =n= y' -> x <=n y -> x' <=n y'.
Proof.
  destruct x, x', y, y'; simpl; try tauto; unfold numle; simpl; try discriminate.
  intros Hx Hy Hle. apply Qle_bool_iff in Hle. apply Qle_bool_iff. lra.
Qed.

Lemma sub_compat (x x' y y' : number) :
  x =n= x' -> y =n= y' -> (x - y)%num =n= (x' - y')%num.
Proof.
  destruct x, x', y, y'; simpl; try tauto.
  intros Hx Hy. now rewrite Hx, Hy.
Qed.

Lemma toLocaleString_numeq (x y : number) :
  x =n= y -> toLocaleString x = toLocaleString y.
Proof.
  destruct x as [a | | |], y as [b | | |]; unfold numeq; try tauto.
  intros H. unfold toLocaleString, signChars.
  assert (Qfloor (Qabs a * 1000 + (1 # 2)) = Qfloor (Qabs b * 1000 + (1 # 2))) as ->
      by (apply Qfloor_comp; now rewrite H).
  assert (Qle_bool 0 a = Qle_bool 0 b) as -> by now rewrite H.
  reflexivity.
Qed.

(** The cash parsed from a field that shows a finite amount is that amount
    rounded to whole dollars. *)
Lemma cash_rounded (s : Investment.Ranked) (x : number) :
  Investment.finalCashInPocket (Investment.entry s) = roundedDollars x ->
  Number.isFinite x = true ->
  Investment.cash s =n= Math.round x.
Proof.
  intros Hs Hx. destruct (isFinite_Fin _ Hx) as (q & ->).
  unfold Investment.cash. rewrite Hs. apply cashOf_roundedDollars.
Qed.

(** The ranking of a non-empty list of strategies whose cash fields show
    finite amounts, in terms of these amounts. *)
Lemma ranking_of_amounts
  (amount : Investment.Strategy -> number) (available : list Investment.Ranked) :
  Forall (fun s =>
            Investment.finalCashInPocket (Investment.entry s)
            = roundedDollars (amount (Investment.entry s))
            /\ Number.isFinite (amount (Investment.entry s)) = true)
         available ->
  available <> [] ->
  exists first others,
    Investment.addRecommendations
      (Investment.Array_sort Investment.byCashDescending available)
    = first :: others
    /\ Permutation (map Investment.entry (first :: others))
                   (map Investment.entry available)
    /\ Forall (fun s =>
                 Investment.finalCashInPocket (Investment.entry s)
                 = roundedDollars (amount (Investment.entry s))
                 /\ Investment.cash s =n= Math.round (amount (Investment.entry s)))
              (first :: others)
    /\ Investment.recommendation first
       = "⭐ OPTIMAL - Highest after-tax return for your situation"%string
    /\ Forall (fun s =>
                 Math.round (amount (Investment.entry s))
                 <=n Math.round (amount (Investment.entry first))
                 /\ Investment.recommendation s
                    = ("Consider optimal strategy - potentially $"
                       ++ toLocaleString
                            (Math.round (amount (Investment.entry first))
                             - Math.round (amount (Investment.entry s)))%num
                       ++ " more after-tax cash")%string
                 /\ Fin 0 <=n (Math.round (amount (Investment.entry first))
                               - Math.round (amount (Investment.entry s)))%num)
              others.
Proof.
  intros Hshown Hne.
  assert (Hfin : Forall finiteCash available).
  { eapply Forall_impl; [| exact Hshown].
    intros s (Hs & Hx). exact (finiteCash_roundedDollars s _ Hs Hx). }
  destruct (ranking_of_finite available Hfin Hne)
    as (first & others & Hrank & Hperm & Hopt & Hothers).
  pose proof (Forall_entry_perm
                (fun e => Investment.finalCashInPocket e = roundedDollars (amount e)
                          /\ Number.isFinite (amount e) = true)
                available (first :: others) Hperm Hshown) as Hshown'.
  assert (Hcash : Forall (fun s =>
                            Investment.finalCashInPocket (Investment.entry s)
                            = roundedDollars (amount (Investment.entry s))
                            /\ Investment.cash s
                               =n= Math.round (amount (Investment.entry s)))
                         (first :: others)).
  { eapply Forall_impl; [| exact Hshown'].
    intros s (Hs & Hx). split; [exact Hs | exact (cash_rounded s _ Hs Hx)]. }
  exists first, others.
  split; [exact Hrank |]. split; [exact Hperm |]. split; [exact Hcash |].
  split; [exact Hopt |].
  inversion Hcash as [| ? ? (_ & Hfirst) Hrest]; subst.
  rewrite Forall_forall in *. intros e He.
  destruct (Hothers e He) as (Hle & Hrec & Hpos).
  destruct (Hrest e He) as (_ & Hcashe).
  split; [exact (numle_compat _ _ _ _ Hcashe Hfirst Hle) |]. split.
  - rewrite Hrec. unfold Investment.considerText.
    rewrite (toLocaleString_numeq _ _ (sub_compat _ _ _ _ Hfirst Hcashe)).
    reflexivity.
  - exact (numle_compat _ _ _ _ (numeq_refl _) (sub_compat _ _ _ _ Hfirst Hcashe) Hpos).
Qed.

(** What the three computed entries show, against the amounts computed. *)
Lemma computed_entries_shown (input : Investment.Input) (amount room : Q) (years : Z) :
  Investment.investmentAmount input = Fin amount ->
  Investment.rrspRoom input = Fin room ->
  parseInt (String_replace (Investment.timeline input) " years" "") = Some years ->
  let a := Investment.amounts input in
  let shown (e : Investment.Strategy) :=
    Investment.finalCashInPocket e = roundedDollars (computedFinalCash input e)
    /\ Number.isFinite (computedFinalCash input e) = true in
  shown (Investment.corporateStrategy a)
  /\ shown (Investment.personalStrategy a)
  /\ ((Investment.rrspRoom input >? Fin 0)%num = true ->
      shown (Investment.rrspStrategy input a)).
Proof.
  intros Ha Hr Hy a shown.
  destruct (finalCash_finite input amount room years Ha Hr Hy) as (Hc & Hp & Hrr).
  split; [split; [reflexivity | exact Hc] |].
  split; [split; [reflexivity | exact Hp] |].
  intros Hgt. subst shown. cbv beta.
  assert (computedFinalCash input (Investment.rrspStrategy input a)
          = Investment.Locals.rrspFinalCash a) as ->.
  { unfold computedFinalCash, Investment.rrspStrategy. rewrite Hgt. reflexivity. }
  split; [exact (rrspStrategy_with_room input a Hgt) | exact Hrr].
Qed.

(** C7.  For every valid input (finite amounts, a timeline that reads as a
    number of years), the response lists the available vehicles first and
    then the unavailable one, and its entries are the three computed
    strategies.  Every available entry shows in [finalCashInPocket] the
    after-tax cash computed for its vehicle, rounded to whole dollars, and
    in whole dollars the first one has at least the cash of every other.
    The first carries the recommendation
    ["⭐ OPTIMAL - Highest after-tax return for your situation"]; every
    other available one carries ["Consider optimal strategy - potentially
    $D more after-tax cash"], where [D] is the cash of the first less its
    own, in whole dollars, and [D] is not negative. *)
Theorem ranking_puts_highest_cash_first (input : Investment.Input) :
  validInvestmentInput input ->
  exists first others unavailable,
    Investment.sortedStrategies input = (first :: others) ++ unavailable
    /\ Permutation (map Investment.entry (Investment.sortedStrategies input))
                   (Investment.calculateInvestmentStrategies input)
    /\ Forall (fun s =>
                 Investment.finalCashInPocket (Investment.entry s)
                 <> "Not Available"%string
                 /\ Investment.finalCashInPocket (Investment.entry s)
                    = roundedDollars (computedFinalCash input (Investment.entry s))
                 /\ Investment.cash s
                    =n= Math.round (computedFinalCash input (Investment.entry s)))
              (first :: others)
    /\ Forall (fun s =>
                 Investment.finalCashInPocket (Investment.entry s)
                 = "Not Available"%string)
              unavailable
    /\ Investment.recommendation first
       = "⭐ OPTIMAL - Highest after-tax return for your situation"%string
    /\ Forall (fun s =>
                 Math.round (computedFinalCash input (Investment.entry s))
                 <=n Math.round (computedFinalCash input (Investment.entry first))
                 /\ Investment.recommendation s
                    = ("Consider optimal strategy - potentially $"
                       ++ toLocaleString
                            (Math.round
                               (computedFinalCash input (Investment.entry first))
                             - Math.round
                                 (computedFinalCash input (Investment.entry s)))%num
                       ++ " more after-tax cash")%string
                 /\ Fin 0 <=n (Math.round
                                 (computedFinalCash input (Investment.entry first))
                               - Math.round
                                   (computedFinalCash input (Investment.entry s)))%num)
              others.
Proof.
  intros (amount & room & years & Ha & Hr & Hy).
  destruct (computed_entries_shown input amount room years Ha Hr Hy)
    as (Hc & Hp & Hrr).
  unfold Investment.sortedStrategies, Investment.calculateInvestmentStrategies.
  set (a := Investment.amounts input) in *.
  set (c := Investment.corporateStrategy a) in *.
  set (p := Investment.personalStrategy a) in *.
  set (r := Investment.rrspStrategy input a) in *.
  cbv zeta.
  change (Investment.finalStrategies [c; p; r])
    with [Investment.finalStrategy c; Investment.finalStrategy p;
          Investment.finalStrategy r].
  pose proof (isAvailable_rounded c _ (proj1 Hc)) as Hac.
  pose proof (isAvailable_rounded p _ (proj1 Hp)) as Hap.
  unfold Investment.availableStrategies, Investment.unavailableStrategies.
  cbn [filter]. rewrite Hac, Hap. cbn [negb].
  assert (Hshows : forall l,
             Forall (fun s =>
                       Investment.finalCashInPocket (Investment.entry s)
                       = roundedDollars (computedFinalCash input (Investment.entry s))
                       /\ Investment.cash s
                          =n= Math.round (computedFinalCash input (Investment.entry s)))
                    l ->
             Forall (fun s =>
                       Investment.finalCashInPocket (Investment.entry s)
                       <> "Not Available"%string
                       /\ Investment.finalCashInPocket (Investment.entry s)
                          = roundedDollars
                              (computedFinalCash input (Investment.entry s))
                       /\ Investment.cash s
                          =n= Math.round
                                (computedFinalCash input (Investment.entry s)))
                    l).
  { intros l Hl. eapply Forall_impl; [| exact Hl].
    intros s (Hs & Hcash). split; [| now split].
    rewrite Hs. intros Hna.
    pose proof (roundedDollars_available
                  (computedFinalCash input (Investment.entry s))) as Hne.
    rewrite Hna in Hne. discriminate Hne. }
  destruct (Investment.rrspRoom input >? Fin 0)%num eqn:Hgt.
  - specialize (Hrr eq_refl).
    pose proof (isAvailable_rounded r _ (proj1 Hrr)) as Har.
    rewrite Har. cbn [negb].
    destruct (ranking_of_amounts (computedFinalCash input)
                [Investment.finalStrategy c; Investment.finalStrategy p;
                 Investment.finalStrategy r])
      as (first & others & Hrank & Hperm & Hshown & Hopt & Hothers);
      [repeat (apply Forall_cons; [assumption |]); apply Forall_nil
      | discriminate |].
    exists first, others, []. rewrite Hrank, !app_nil_r.
    split; [reflexivity |]. split; [exact Hperm |].
    split; [exact (Hshows _ Hshown) |].
    split; [constructor | split; assumption].
  - assert (Hnone : Investment.finalCashInPocket r = "Not Available"%string).
    { subst r. now rewrite (rrspStrategy_without_room input a Hgt). }
    assert (Investment.isAvailable (Investment.finalStrategy r) = false) as Har.
    { unfold Investment.isAvailable.
      cbn [Investment.entry Investment.finalStrategy]. now rewrite Hnone. }
    rewrite Har. cbn [negb map].
    destruct (ranking_of_amounts (computedFinalCash input)
                [Investment.finalStrategy c; Investment.finalStrategy p])
      as (first & others & Hrank & Hperm & Hshown & Hopt & Hothers);
      [repeat (apply Forall_cons; [assumption |]); apply Forall_nil
      | discriminate |].
    exists first, others,
      [Investment.recommend Investment.notApplicableText (Investment.finalStrategy r)].
    rewrite Hrank.
    split; [reflexivity |]. split; [| split; [| split; [| split; assumption]]].
    + rewrite map_app. cbn [map Investment.entry Investment.recommend].
      change [c; p; r] with ([c; p] ++ [r]).
      apply Permutation_app_tail. exact Hperm.
    + exact (Hshows _ Hshown).
    + repeat constructor. exact Hnone.
Qed.

Lemma ranking_puts_highest_cash_first_witness :
  exists first others unavailable,
    Investment.sortedStrategies sampleInput = (first :: others) ++ unavailable
    /\ Permutation (map Investment.entry (Investment.sortedStrategies sampleInput))
                   (Investment.calculateInvestmentStrategies sampleInput)
    /\ Forall (fun s =>
                 Investment.finalCashInPocket (Investment.entry s)
                 <> "Not Available"%string
                 /\ Investment.finalCashInPocket (Investment.entry s)
                    = roundedDollars (computedFinalCash sampleInput (Investment.entry s))
                 /\ Investment.cash s
                    =n= Math.round (computedFinalCash sampleInput (Investment.entry s)))
              (first :: others)
    /\ Forall (fun s =>
                 Investment.finalCashInPocket (Investment.entry s)
                 = "Not Available"%string)
              unavailable
    /\ Investment.recommendation first
       = "⭐ OPTIMAL - Highest after-tax return for your situation"%string
    /\ Forall (fun s =>
                 Math.round (computedFinalCash sampleInput (Investment.entry s))
                 <=n Math.round (computedFinalCash sampleInput (Investment.entry first))
                 /\ Investment.recommendation s
                    = ("Consider optimal strategy - potentially $"
                       ++ toLocaleString
                            (Math.round
                               (computedFinalCash sampleInput (Investment.entry first))
                             - Math.round
                                 (computedFinalCash sampleInput (Investment.entry s)))%num
                       ++ " more after-tax cash")%string
                 /\ Fin 0 <=n (Math.round
                                 (computedFinalCash sampleInput (Investment.entry first))
                               - Math.round
                                   (computedFinalCash sampleInput (Investment.entry s)))%num)
              others.
Proof.
  apply (ranking_puts_highest_cash_first sampleInput).
  exists 100000, 30000, 10%Z. repeat split; reflexivity.
Defined.

(** ** Salary / dividend comparator *)

(** The total tax and the net cash of one split, as rationals. *)
Lemma amounts_bounds (s d nbi : Q) :
  0 <= s ->
  exists t c,
    SmartSplit.Locals.totalTax (SmartSplit.amounts (Fin s) (Fin d) (Fin nbi)) = Fin t
    /\ SmartSplit.Locals.netCash (SmartSplit.amounts (Fin s) (Fin d) (Fin nbi)) = Fin c
    /\ 0 <= t /\ c <= s + d.
Proof.
  intros Hs.
  assert (Htax : exists t,
             SmartSplit.Locals.totalTax (SmartSplit.amounts (Fin s) (Fin d) (Fin nbi))
             =n= Fin t /\ 0 <= t).
  { eexists. split.
    - cbv beta iota zeta delta
        [SmartSplit.amounts SmartSplit.Locals.totalTax calculateCPPContributions
           calculateEIContributions calculateDividendTax cpp1 cpp2
           contributoryEarnings cpp2Earnings employee employer tax
           TAX_RATES.SMALL_BUSINESS_RATE TAX_RATES.CPP.YMPE
           TAX_RATES.CPP.BASIC_EXEMPTION TAX_RATES.CPP.EMPLOYEE_RATE
           TAX_RATES.CPP.YAMPE TAX_RATES.CPP.CPP2_RATE TAX_RATES.EI.MIE
           TAX_RATES.EI.EMPLOYEE_RATE TAX_RATES.EI.EMPLOYER_RATE
           TAX_RATES.DIVIDEND.GROSS_UP TAX_RATES.DIVIDEND.FEDERAL_DTC
           TAX_RATES.DIVIDEND.ONTARIO_DTC].
      solve [repeat finite_step].
    - pose proof (walkSpec_nonneg _ personalBands_nonneg s).
      pose proof (clamp_bounds (s - 3500) 0 (68500 - 3500) ltac:(lra)).
      pose proof (clamp_bounds (s - 68500) 0 (73200 - 68500) ltac:(lra)).
      unfold clamp in *.
      assert (0 <= Qmin s 63200) by (apply Q.min_glb; lra).
      match goal with |- context [Qmax ?a 0 * 0.122] =>
        pose proof (Q.le_max_r a 0) end.
      match goal with |- context [Qmax (walkSpec ?t ?x - ?y - ?z) 0] =>
        pose proof (Q.le_max_r (walkSpec t x - y - z) 0) end.
      lra. }
  assert (Hcash : exists c,
             SmartSplit.Locals.netCash (SmartSplit.amounts (Fin s) (Fin d) (Fin nbi))
             =n= Fin c /\ c <= s + d).
  { eexists. split.
    - cbv beta iota zeta delta
        [SmartSplit.amounts SmartSplit.Locals.netCash calculateCPPContributions
           calculateEIContributions calculateDividendTax cpp1 cpp2
           contributoryEarnings cpp2Earnings employee employer tax
           TAX_RATES.SMALL_BUSINESS_RATE TAX_RATES.CPP.YMPE
           TAX_RATES.CPP.BASIC_EXEMPTION TAX_RATES.CPP.EMPLOYEE_RATE
           TAX_RATES.CPP.YAMPE TAX_RATES.CPP.CPP2_RATE TAX_RATES.EI.MIE
           TAX_RATES.EI.EMPLOYEE_RATE TAX_RATES.EI.EMPLOYER_RATE
           TAX_RATES.DIVIDEND.GROSS_UP TAX_RATES.DIVIDEND.FEDERAL_DTC
           TAX_RATES.DIVIDEND.ONTARIO_DTC].
      solve [repeat finite_step].
    - pose proof (walkSpec_nonneg _ personalBands_nonneg s).
      pose proof (clamp_bounds (s - 3500) 0 (68500 - 3500) ltac:(lra)).
      pose proof (clamp_bounds (s - 68500) 0 (73200 - 68500) ltac:(lra)).
      unfold clamp in *.
      assert (0 <= Qmin s 63200) by (apply Q.min_glb; lra).
      match goal with |- context [Qmax (walkSpec ?t ?x - ?y - ?z) 0] =>
        pose proof (Q.le_max_r (walkSpec t x - y - z) 0) end.
      lra. }
  destruct Htax as (t & Ht & Ht0). destruct Hcash as (c & Hc & Hc0).
  destruct (numeq_Fin_inv _ _ Ht) as (t' & Ht' & Hqt).
  destruct (numeq_Fin_inv _ _ Hc) as (c' & Hc' & Hqc).
  exists t', c'. repeat split; auto; lra.
Qed.

Lemma round_mono (a b : Q) : a <= b -> Math.round (Fin a) <=n Math.round (Fin b).
Proof.
  intros H. apply numle_Fin. rewrite <- Zle_Qle.
  apply Qfloor_resp_le. lra.
Qed.

Lemma round_nonneg (a : Q) : 0 <= a -> Fin 0 <=n Math.round (Fin a).
Proof.
  intros H. apply numle_Fin.
  change 0 with (inject_Z 0). rewrite <- Zle_Qle.
  change 0%Z with (Qfloor 0). apply Qfloor_resp_le. lra.
Qed.

Lemma numle_numeq_l (x y z : number) : x =n= y -> y <=n z -> x <=n z.
Proof.
  destruct x, y, z; simpl; try tauto; unfold numle; simpl; try discriminate.
  intros H Hle. apply Qle_bool_iff in Hle. apply Qle_bool_iff. lra.
Qed.

Lemma numle_numeq_r (x y z : number) : y =n= z -> x <=n z -> x <=n y.
Proof.
  destruct x, y, z; simpl; try tauto; unfold numle; simpl; try discriminate.
  intros H Hle. apply Qle_bool_iff in Hle. apply Qle_bool_iff. lra.
Qed.

(** What one split reports, against the amounts it was computed from. *)
Lemma reported_bounds (s d nbi bound : Q) :
  0 <= s -> s + d <= bound ->
  (Fin 0 <=n SmartSplit.Locals.totalTax (SmartSplit.amounts (Fin s) (Fin d) (Fin nbi))
   /\ SmartSplit.Locals.netCash (SmartSplit.amounts (Fin s) (Fin d) (Fin nbi))
      <=n Fin bound)
  /\ (Fin 0 <=n cashOf (SmartSplit.totalTax
                          (SmartSplit.calculateSmartSplitStrategy (Fin s) (Fin d) (Fin nbi)))
      /\ cashOf (SmartSplit.netIncome
                   (SmartSplit.calculateSmartSplitStrategy (Fin s) (Fin d) (Fin nbi)))
         <=n Math.round (Fin bound)).
Proof.
  intros Hs Hb.
  destruct (amounts_bounds s d nbi Hs) as (t & c & Ht & Hc & Ht0 & Hc0).
  unfold SmartSplit.calculateSmartSplitStrategy.
  cbn [SmartSplit.totalTax SmartSplit.netIncome].
  rewrite Ht, Hc. repeat split.
  - now apply numle_Fin.
  - apply numle_Fin. lra.
  - eapply numle_numeq_r; [apply cashOf_roundedDollars | now apply round_nonneg].
  - eapply numle_numeq_l; [apply cashOf_roundedDollars | apply round_mono; lra].
Qed.

(** A whole number of dollars is its own rounding. *)
Lemma round_whole (w : Q) (k : Z) : w == inject_Z k -> Math.round (Fin w) =n= Fin w.
Proof.
  intros H. unfold Math.round, numeq.
  assert (Qfloor (w + (1 # 2)) = k) as ->.
  { rewrite <- (Qfloor_half k). apply Qfloor_comp. now rewrite H. }
  now symmetry.
Qed.

(** C9.  For a non-negative withdrawal [w] and net business income, the
    rows "100% Salary" (salary [w], no dividend) and "100% Dividend" (no
    salary, dividend [w]) both have a total tax of at least zero and a net
    cash of at most [w], on the amounts computed.  The rows report these
    amounts rounded to whole dollars: the [totalTax] they report is at
    least zero and the [netIncome] they report is at most [Math.round(w)],
    so at most [w] when [w] is a whole number of dollars. *)
Theorem salary_and_dividend_strategies_bounded (w nbi : Q) :
  0 <= w -> 0 <= nbi ->
  firstn 2 (SmartSplit.strategies (Fin w) (Fin nbi))
  = [ {| SmartSplit.strategy := "100% Salary";
         SmartSplit.result :=
           SmartSplit.calculateSmartSplitStrategy (Fin w) (Fin 0) (Fin nbi) |};
      {| SmartSplit.strategy := "100% Dividend";
         SmartSplit.result :=
           SmartSplit.calculateSmartSplitStrategy (Fin 0) (Fin w) (Fin nbi) |} ]
  /\ Forall (fun a => Fin 0 <=n SmartSplit.Locals.totalTax a
                      /\ SmartSplit.Locals.netCash a <=n Fin w)
            [ SmartSplit.amounts (Fin w) (Fin 0) (Fin nbi);
              SmartSplit.amounts (Fin 0) (Fin w) (Fin nbi) ]
  /\ Forall (fun row =>
               Fin 0 <=n cashOf (SmartSplit.totalTax (SmartSplit.result row))
               /\ cashOf (SmartSplit.netIncome (SmartSplit.result row))
                  <=n Math.round (Fin w))
            (firstn 2 (SmartSplit.strategies (Fin w) (Fin nbi)))
  /\ (forall k : Z, w == inject_Z k ->
        Forall (fun row =>
                  cashOf (SmartSplit.netIncome (SmartSplit.result row)) <=n Fin w)
               (firstn 2 (SmartSplit.strategies (Fin w) (Fin nbi)))).
Proof.
  intros Hw _.
  destruct (reported_bounds w 0 nbi w Hw ltac:(lra)) as (Hsalary & Hsalary').
  destruct (reported_bounds 0 w nbi w ltac:(lra) ltac:(lra))
    as (Hdividend & Hdividend').
  split; [reflexivity |]. split; [| split].
  - repeat constructor; tauto.
  - cbn [firstn SmartSplit.strategies].
    repeat constructor; cbn [SmartSplit.result]; tauto.
  - intros k Hk. pose proof (round_whole w k Hk) as Hround.
    cbn [firstn SmartSplit.strategies].
    repeat constructor; cbn [SmartSplit.result];
      (eapply numle_numeq_r; [apply numeq_sym; exact Hround | tauto]).
Qed.

Lemma salary_and_dividend_strategies_bounded_witness :
  firstn 2 (SmartSplit.strategies (Fin 100000) (Fin 140000))
  = [ {| SmartSplit.strategy := "100% Salary";
         SmartSplit.result :=
           SmartSplit.calculateSmartSplitStrategy (Fin 100000) (Fin 0) (Fin 140000) |};
      {| SmartSplit.strategy := "100% Dividend";
         SmartSplit.result :=
           SmartSplit.calculateSmartSplitStrategy (Fin 0) (Fin 100000) (Fin 140000) |} ]
  /\ Forall (fun a => Fin 0 <=n SmartSplit.Locals.totalTax a
                      /\ SmartSplit.Locals.netCash a <=n Fin 100000)
            [ SmartSplit.amounts (Fin 100000) (Fin 0) (Fin 140000);
              SmartSplit.amounts (Fin 0) (Fin 100000) (Fin 140000) ]
  /\ Forall (fun row =>
               Fin 0 <=n cashOf (SmartSplit.totalTax (SmartSplit.result row))
               /\ cashOf (SmartSplit.netIncome (SmartSplit.result row))
                  <=n Math.round (Fin 100000))
            (firstn 2 (SmartSplit.strategies (Fin 100000) (Fin 140000)))
  /\ Forall (fun row =>
               cashOf (SmartSplit.netIncome (SmartSplit.result row)) <=n Fin 100000)
            (firstn 2 (SmartSplit.strategies (Fin 100000) (Fin 140000))).
Proof.
  destruct (salary_and_dividend_strategies_bounded 100000 140000)
    as (Hrows & Hamounts & Hreported & Hwhole); [discriminate | discriminate |].
  repeat split; try assumption.
  apply (Hwhole 100000%Z). reflexivity.
Defined.

(** C9, as stated, fails on what the rows report: for a withdrawal of 0.60
    the "100% Dividend" row keeps 0.54 after tax and reports it as ["$1"],
    more than the withdrawal. *)
Lemma netIncome_reported_above_fractional_withdrawal :
  nth_error (SmartSplit.strategies (Fin 0.6) (Fin 100000)) 1
  = Some {| SmartSplit.strategy := "100% Dividend";
            SmartSplit.result :=
              SmartSplit.calculateSmartSplitStrategy (Fin 0) (Fin 0.6) (Fin 100000) |}
  /\ SmartSplit.netIncome
       (SmartSplit.calculateSmartSplitStrategy (Fin 0) (Fin 0.6) (Fin 100000))
     = "$1"%string
  /\ cashOf (SmartSplit.netIncome
               (SmartSplit.calculateSmartSplitStrategy (Fin 0) (Fin 0.6) (Fin 100000)))
     =n= Fin 1
  /\ ~ (cashOf (SmartSplit.netIncome
                  (SmartSplit.calculateSmartSplitStrategy (Fin 0) (Fin 0.6) (Fin 100000)))
        <=n Fin 0.6).
Proof.
  split; [reflexivity |].
  split; [vm_compute; reflexivity |].
  split; [vm_compute; reflexivity |].
  vm_compute. discriminate.
Qed.

(** * Further properties of the tax engine *)

(** ** Marginal rates *)

(** [prod_nonneg a b]: the fact [0 <= a * b], for two factors that linear
    arithmetic shows non-negative. *)
Ltac prod_nonneg a b :=
  pose proof (Qmult_le_0_compat a b ltac:(lra) ltac:(lra)).

Lemma walkSpec_nil (r : Q) : walkSpec [] r = 0.
Proof. reflexivity. Qed.

Lemma walkSpec_cons (b : Band) (rest : list Band) (r : Q) :
  walkSpec (b :: rest) r
  = if Qle_bool r 0 then 0
    else portion r b * pct b + walkSpec rest (r - portion r b).
Proof. reflexivity. Qed.

(** Over any stretch of income the walk grows by no more than the highest
    rate of the table. *)
Lemma walkSpec_increment_upper (hi : Q) (table : list Band) :
  0 <= hi ->
  Forall nonnegBand table -> Forall (fun b => pct b <= hi) table ->
  forall x y, x <= y -> walkSpec table y - walkSpec table x <= hi * (y - x).
Proof.
  intros Hhi Hnn Hrate. induction table as [| b rest IH]; intros x y Hxy.
  - rewrite !walkSpec_nil. prod_nonneg hi (y - x). lra.
  - inversion Hnn as [| ? ? Hb Hnn']; subst.
    inversion Hrate as [| ? ? Hp Hrate']; subst.
    specialize (IH Hnn' Hrate').
    rewrite !walkSpec_cons.
    destruct (Qle_bool x 0) eqn:Ex, (Qle_bool y 0) eqn:Ey.
    + prod_nonneg hi (y - x). lra.
    + apply Qle_bool_iff in Ex. apply Qle_bool_false in Ey.
      destruct (portion_bounds b y Hb ltac:(lra)) as [Hp0 Hpy].
      specialize (IH 0 (y - portion y b) ltac:(lra)).
      rewrite (walkSpec_nonpos rest 0) in IH by lra.
      prod_nonneg (hi - pct b) (portion y b). prod_nonneg hi (- x). lra.
    + apply Qle_bool_false in Ex. apply Qle_bool_iff in Ey. lra.
    + apply Qle_bool_false in Ex.
      destruct (portion_mono b x y Hxy) as [Hpm Hrm].
      specialize (IH _ _ Hrm).
      prod_nonneg (hi - pct b) (portion y b - portion x b). lra.
Qed.

(** When the table ends with an unbounded bracket, it grows by no less
    than the lowest rate. *)
Lemma walkSpec_increment_lower (lo : Q) (table : list Band) :
  0 <= lo ->
  Forall nonnegBand table -> Forall (fun b => lo <= pct b) table ->
  unboundedLast table ->
  forall x y, 0 <= x -> x <= y -> lo * (y - x) <= walkSpec table y - walkSpec table x.
Proof.
  intros Hlo Hnn Hrate. induction table as [| b rest IH]; intros Hub x y Hx Hxy.
  - destruct Hub.
  - inversion Hnn as [| ? ? Hb Hnn']; subst.
    inversion Hrate as [| ? ? Hp Hrate']; subst.
    specialize (IH Hnn' Hrate').
    rewrite !walkSpec_cons. cbn [unboundedLast] in Hub.
    destruct (portion_mono b x y Hxy) as [Hpm Hrm].
    destruct (portion_bounds b x Hb Hx) as [Hpx0 Hpx].
    assert (Hrest : lo * ((y - portion y b) - (x - portion x b))
                    <= walkSpec rest (y - portion y b)
                       - walkSpec rest (x - portion x b)).
    { unfold portion in *. destruct (bandWidth b) as [w |].
      - apply IH; [exact Hub | lra | lra].
      - rewrite !walkSpec_nonpos by lra. lra. }
    prod_nonneg lo (portion x b).
    destruct (Qle_bool x 0) eqn:Ex, (Qle_bool y 0) eqn:Ey.
    + apply Qle_bool_iff in Ex. apply Qle_bool_iff in Ey.
      prod_nonneg lo (x - y). lra.
    + apply Qle_bool_iff in Ex. apply Qle_bool_false in Ey.
      rewrite (walkSpec_nonpos rest (x - portion x b)) in Hrest by lra.
      destruct (portion_bounds b y Hb ltac:(lra)) as [Hpy0 Hpy].
      prod_nonneg (pct b - lo) (portion y b). prod_nonneg lo x. lra.
    + apply Qle_bool_false in Ex. apply Qle_bool_iff in Ey. lra.
    + prod_nonneg (pct b - lo) (portion y b - portion x b). lra.
Qed.

Lemma personalBands_rates :
  Forall (fun b => 0.2005 <= pct b) personalBands
  /\ Forall (fun b => pct b <= 0.4953) personalBands
  /\ unboundedLast personalBands.
Proof.
  rewrite personalBands_table.
  split; [| split]; [repeat constructor; cbn; lra .. | exact I].
Qed.

Lemma personal_increment (x y : Q) :
  0 <= x -> x <= y ->
  0.2005 * (y - x) <= walkSpec personalBands y - walkSpec personalBands x
  /\ walkSpec personalBands y - walkSpec personalBands x <= 0.4953 * (y - x).
Proof.
  intros Hx Hxy. destruct personalBands_rates as (Hlo & Hhi & Hub). split.
  - apply walkSpec_increment_lower; auto using personalBands_nonneg. lra.
  - apply walkSpec_increment_upper; auto using personalBands_nonneg. lra.
Qed.

(** X1.  Between two incomes [0 <= x <= y] the tax grows by at least 20.05%
    and at most 49.53% of the difference: the marginal rate stays between
    the lowest and the highest rate of the table.  So the tax on an income
    is at most 49.53% of it, and a higher income never leaves less after
    tax. *)
Theorem calculatePersonalTax_marginal_rate_bounds (x y : Q) :
  0 <= x -> x <= y ->
  (Fin 0.2005 * (Fin y - Fin x))%num
  <=n (calculatePersonalTax (Fin y) - calculatePersonalTax (Fin x))%num
  /\ (calculatePersonalTax (Fin y) - calculatePersonalTax (Fin x))%num
     <=n (Fin 0.4953 * (Fin y - Fin x))%num
  /\ calculatePersonalTax (Fin y) <=n (Fin 0.4953 * Fin y)%num
  /\ (Fin x - calculatePersonalTax (Fin x))%num
     <=n (Fin y - calculatePersonalTax (Fin y))%num.
Proof.
  intros Hx Hxy.
  destruct (personal_increment x y Hx Hxy) as [Hlo Hhi].
  destruct (personal_increment 0 y ltac:(lra) ltac:(lra)) as [_ Hhi0].
  rewrite (walkSpec_nonpos personalBands 0) in Hhi0 by lra.
  destruct (calculatePersonalTax_Fin x) as (tx & -> & Hqx).
  destruct (calculatePersonalTax_Fin y) as (ty & -> & Hqy).
  rewrite <- Hqx, <- Hqy in *.
  repeat split; apply numle_Fin; lra.
Qed.

Lemma calculatePersonalTax_marginal_rate_bounds_witness :
  (Fin 0.2005 * (Fin 90000 - Fin 40000))%num
  <=n (calculatePersonalTax (Fin 90000) - calculatePersonalTax (Fin 40000))%num
  /\ (calculatePersonalTax (Fin 90000) - calculatePersonalTax (Fin 40000))%num
     <=n (Fin 0.4953 * (Fin 90000 - Fin 40000))%num
  /\ calculatePersonalTax (Fin 90000) <=n (Fin 0.4953 * Fin 90000)%num
  /\ (Fin 40000 - calculatePersonalTax (Fin 40000))%num
     <=n (Fin 90000 - calculatePersonalTax (Fin 90000))%num.
Proof.
  apply (calculatePersonalTax_marginal_rate_bounds 40000 90000); discriminate.
Defined.

(** ** Dividend tax on non-negative incomes *)

(** The value of the dividend tax when neither amount is negative: the
    floor at zero is not reached. *)
Lemma calculateDividendTax_unfloored (d y : Q) :
  0 <= d -> 0 <= y ->
  tax (calculateDividendTax (Fin d) (Fin y))
  =n= Fin (walkSpec personalBands (y + (d + d * 0.15))
           - walkSpec personalBands y
           - ((d + d * 0.15) * 0.090301 + (d + d * 0.15) * 0.029863)).
Proof.
  intros Hd Hy.
  eapply numeq_trans; [apply calculateDividendTax_value |]. simpl.
  destruct (personal_increment y (y + (d + d * 0.15)) Hy ltac:(lra)) as [Hlo _].
  apply Q.max_l. lra.
Qed.

(** X2.  For a non-negative dividend and other income the credits never
    exceed the incremental tax: the result is the incremental tax less the
    credits, without the floor, and lies between 8.0336% and 37.5136% of
    the grossed-up dividend. *)
Theorem calculateDividendTax_floor_not_reached (d y : Q) :
  0 <= d -> 0 <= y ->
  tax (calculateDividendTax (Fin d) (Fin y))
  =n= ((calculatePersonalTax (Fin y + (Fin d + Fin d * Fin 0.15))
        - calculatePersonalTax (Fin y))
       - (Fin 0.090301 + Fin 0.029863) * (Fin d + Fin d * Fin 0.15))%num
  /\ (Fin 0.080336 * (Fin d + Fin d * Fin 0.15))%num
     <=n tax (calculateDividendTax (Fin d) (Fin y))
  /\ tax (calculateDividendTax (Fin d) (Fin y))
     <=n (Fin 0.375136 * (Fin d + Fin d * Fin 0.15))%num.
Proof.
  intros Hd Hy.
  pose proof (calculateDividendTax_unfloored d y Hd Hy) as Hv.
  destruct (personal_increment y (y + (d + d * 0.15)) Hy ltac:(lra)) as [Hlo Hhi].
  split; [| split].
  - eapply numeq_trans; [exact Hv |]. apply numeq_sym. finite_value. ring.
  - eapply numle_numeq; [apply Fin_numeq | exact Hv | lra].
  - eapply numle_numeq; [exact Hv | apply Fin_numeq | lra].
Qed.

Lemma calculateDividendTax_floor_not_reached_witness :
  tax (calculateDividendTax (Fin 50000) (Fin 60000))
  =n= ((calculatePersonalTax (Fin 60000 + (Fin 50000 + Fin 50000 * Fin 0.15))
        - calculatePersonalTax (Fin 60000))
       - (Fin 0.090301 + Fin 0.029863) * (Fin 50000 + Fin 50000 * Fin 0.15))%num
  /\ (Fin 0.080336 * (Fin 50000 + Fin 50000 * Fin 0.15))%num
     <=n tax (calculateDividendTax (Fin 50000) (Fin 60000))
  /\ tax (calculateDividendTax (Fin 50000) (Fin 60000))
     <=n (Fin 0.375136 * (Fin 50000 + Fin 50000 * Fin 0.15))%num.
Proof.
  apply (calculateDividendTax_floor_not_reached 50000 60000); discriminate.
Defined.

(** X3.  The dividend tax does not decrease when the dividend grows, the
    other income staying the same. *)
Theorem calculateDividendTax_monotone (d1 d2 y : Q) :
  0 <= d1 -> d1 <= d2 -> 0 <= y ->
  tax (calculateDividendTax (Fin d1) (Fin y))
  <=n tax (calculateDividendTax (Fin d2) (Fin y)).
Proof.
  intros Hd1 Hd Hy.
  eapply numle_numeq;
    [apply calculateDividendTax_unfloored; lra
    | apply calculateDividendTax_unfloored; lra |].
  destruct (personal_increment (y + (d1 + d1 * 0.15)) (y + (d2 + d2 * 0.15))
              ltac:(lra) ltac:(lra)) as [Hlo _].
  lra.
Qed.

Lemma calculateDividendTax_monotone_witness :
  tax (calculateDividendTax (Fin 10000) (Fin 60000))
  <=n tax (calculateDividendTax (Fin 50000) (Fin 60000)).
Proof.
  apply (calculateDividendTax_monotone 10000 50000 60000); discriminate.
Defined.

(** ** Employment insurance *)

(** X4.  The EI premium follows the salary up to the maximum insurable
    earnings of 63200 and is constant from there on; the employer pays 1.4
    times the employee premium.  There is no floor: a negative salary gives
    a negative premium. *)
Theorem calculateEIContributions_capped :
  (forall s : Q, s <= 63200 ->
     employee (calculateEIContributions (Fin s)) =n= Fin (s * 0.0166))
  /\ (forall s : Q, 63200 <= s ->
        employee (calculateEIContributions (Fin s)) =n= Fin (63200 * 0.0166)
        /\ employer (calculateEIContributions (Fin s)) =n= Fin (63200 * 0.02324))
  /\ (forall s : Q,
        employer (calculateEIContributions (Fin s))
        =n= (Fin 1.4 * employee (calculateEIContributions (Fin s)))%num).
Proof.
  assert (Hvalue : forall s : Q,
             employee (calculateEIContributions (Fin s)) =n= Fin (Qmin s 63200 * 0.0166)
             /\ employer (calculateEIContributions (Fin s))
                =n= Fin (Qmin s 63200 * 0.02324)).
  { intros s.
    cbv beta iota zeta delta
      [calculateEIContributions employee employer TAX_RATES.EI.MIE
         TAX_RATES.EI.EMPLOYEE_RATE TAX_RATES.EI.EMPLOYER_RATE].
    split; finite_value; reflexivity. }
  split; [| split]; intros s.
  - intros Hs. eapply numeq_trans; [apply Hvalue |]. simpl.
    rewrite Q.min_l by exact Hs. reflexivity.
  - intros Hs. split; (eapply numeq_trans; [apply Hvalue |]); simpl;
      rewrite Q.min_r by exact Hs; reflexivity.
  - destruct (Hvalue s) as [He Hr].
    destruct (numeq_Fin_inv _ _ He) as (e & -> & Hqe).
    eapply numeq_trans; [exact Hr |]. simpl. rewrite Hqe. ring.
Qed.

Lemma calculateEIContributions_capped_witness :
  employee (calculateEIContributions (Fin (-1000))) =n= Fin (-1000 * 0.0166)
  /\ employee (calculateEIContributions (Fin 90000)) =n= Fin (63200 * 0.0166)
  /\ employer (calculateEIContributions (Fin 90000)) =n= Fin (63200 * 0.02324).
Proof.
  destruct calculateEIContributions_capped as (Hbelow & Habove & _).
  split; [apply Hbelow; discriminate | apply Habove; discriminate].
Defined.

(** ** Net cash and effective rate of a split *)

Ltac unfold_split :=
  cbv beta iota zeta delta
    [SmartSplit.amounts SmartSplit.Locals.totalTax SmartSplit.Locals.netCash
       SmartSplit.Locals.effectivePersonalRate SmartSplit.Locals.rrspRoom
       calculateCPPContributions
       calculateEIContributions calculateDividendTax cpp1 cpp2
       contributoryEarnings cpp2Earnings employee employer tax
       TAX_RATES.SMALL_BUSINESS_RATE TAX_RATES.CPP.YMPE
       TAX_RATES.CPP.BASIC_EXEMPTION TAX_RATES.CPP.EMPLOYEE_RATE
       TAX_RATES.CPP.YAMPE TAX_RATES.CPP.CPP2_RATE TAX_RATES.EI.MIE
       TAX_RATES.EI.EMPLOYEE_RATE TAX_RATES.EI.EMPLOYER_RATE
       TAX_RATES.DIVIDEND.GROSS_UP TAX_RATES.DIVIDEND.FEDERAL_DTC
       TAX_RATES.DIVIDEND.ONTARIO_DTC].

Lemma netCash_value (s d : Q) (nbi : number) :
  SmartSplit.Locals.netCash (SmartSplit.amounts (Fin s) (Fin d) nbi)
  =n= Fin (s + d - burdenOf s d).
Proof. unfold_split. unfold burdenOf. finite_value. reflexivity. Qed.

(** The employee CPP of a non-negative salary is between nothing and 5.95%
    of it. *)
Lemma cpp_within_salary (s : Q) :
  0 <= s ->
  0 <= Qmin (Qmax (s - 3500) 0) (68500 - 3500) * 0.0595
       + Qmin (Qmax (s - 68500) 0) (73200 - 68500) * 0.04
    <= 0.0595 * s.
Proof.
  intros Hs.
  pose proof (clamp_bounds (s - 3500) 0 (68500 - 3500) ltac:(lra)) as H1.
  pose proof (clamp_bounds (s - 68500) 0 (73200 - 68500) ltac:(lra)) as H2.
  unfold clamp in *.
  pose proof (Q.le_min_l (Qmax (s - 3500) 0) (68500 - 3500)) as H3.
  pose proof (Q.le_min_l (Qmax (s - 68500) 0) (73200 - 68500)) as H4.
  assert (Qmax (s - 3500) 0 <= s) as H5 by (apply Q.max_lub; lra).
  destruct (Qlt_le_dec s 68500) as [Hlt | Hge].
  - assert (Qmax (s - 68500) 0 <= 0) by (apply Q.max_lub; lra). lra.
  - assert (Qmax (s - 68500) 0 <= s - 68500) by (apply Q.max_lub; lra). lra.
Qed.

Lemma burdenOf_bounds (s d : Q) :
  0 <= s -> 0 <= d -> 0 <= burdenOf s d <= 0.5714 * (s + d).
Proof.
  intros Hs Hd. unfold burdenOf.
  destruct (personal_increment 0 s ltac:(lra) Hs) as [Hlo Hhi].
  rewrite (walkSpec_nonpos personalBands 0) in Hlo, Hhi by lra.
  destruct (personal_increment s (s + (d + d * 0.15)) Hs ltac:(lra)) as [Hdlo Hdhi].
  rewrite (Q.max_l (walkSpec personalBands (s + (d + d * 0.15))
                    - walkSpec personalBands s
                    - ((d + d * 0.15) * 0.090301 + (d + d * 0.15) * 0.029863)) 0)
    by lra.
  pose proof (cpp_within_salary s Hs) as Hcpp.
  assert (0 <= Qmin s 63200 <= s) as Hei
      by (split; [apply Q.min_glb; lra | apply Q.le_min_l]).
  lra.
Qed.

(** The net cash and the effective rate of a split of non-negative
    amounts. *)
Lemma split_bounds (s d : Q) (nbi : number) :
  0 <= s -> 0 <= d ->
  Fin 0 <=n SmartSplit.Locals.netCash (SmartSplit.amounts (Fin s) (Fin d) nbi)
  /\ SmartSplit.Locals.netCash (SmartSplit.amounts (Fin s) (Fin d) nbi)
     <=n Fin (s + d)
  /\ Fin 0 <=n SmartSplit.Locals.effectivePersonalRate
                 (SmartSplit.amounts (Fin s) (Fin d) nbi)
  /\ SmartSplit.Locals.effectivePersonalRate
       (SmartSplit.amounts (Fin s) (Fin d) nbi) <=n Fin 57.14.
Proof.
  intros Hs Hd.
  pose proof (burdenOf_bounds s d Hs Hd) as [Hb0 Hb1].
  split; [| split].
  - eapply numle_numeq; [apply Fin_numeq | apply netCash_value | lra].
  - eapply numle_numeq; [apply netCash_value | apply Fin_numeq | lra].
  - assert (Hrate :
              SmartSplit.Locals.effectivePersonalRate
                (SmartSplit.amounts (Fin s) (Fin d) nbi)
              =n= Fin (if Qle_bool (s + d) 0 then 0
                       else burdenOf s d / (s + d) * 100)).
    { unfold_split.
      change ((Fin s + Fin d)%num >? Fin 0)%num with (negb (Qle_bool (s + d) 0)).
      destruct (Qle_bool (s + d) 0) eqn:E; cbn [negb]; [reflexivity |].
      apply Qle_bool_false in E.
      match goal with |- (?B / _ * _)%num =n= _ =>
        assert (B =n= Fin (burdenOf s d)) as HB
            by (unfold burdenOf; finite_value; reflexivity)
      end.
      destruct (numeq_Fin_inv _ _ HB) as (b & -> & Hq).
      cbn [Number.div Number.mul Number.add].
      destruct (s + d ?= 0) eqn:C.
      - apply Qeq_alt in C. lra.
      - apply Qlt_alt in C. lra.
      - simpl. now rewrite Hq. }
    destruct (Qle_bool (s + d) 0) eqn:E.
    + split; (eapply numle_numeq;
              [first [apply Fin_numeq | exact Hrate]
              | first [exact Hrate | apply Fin_numeq] | lra]).
    + apply Qle_bool_false in E.
      assert (0 <= burdenOf s d / (s + d)) by (apply Qle_shift_div_l; lra).
      assert (burdenOf s d / (s + d) <= 0.5714) by (apply Qle_shift_div_r; lra).
      split; (eapply numle_numeq;
              [first [apply Fin_numeq | exact Hrate]
              | first [exact Hrate | apply Fin_numeq] | lra]).
Qed.

(** X5.  For a non-negative salary and dividend the net cash handed out is
    never negative and never more than what is withdrawn, and the effective
    personal rate is a percentage between 0 and 57.14.  When nothing is
    withdrawn the rate is 0, not a division by zero, and the row shows
    ["0.0%"]. *)
Theorem smartSplit_net_cash_and_rate (s d : Q) (nbi : number) :
  0 <= s -> 0 <= d ->
  Fin 0 <=n SmartSplit.Locals.netCash (SmartSplit.amounts (Fin s) (Fin d) nbi)
  /\ SmartSplit.Locals.netCash (SmartSplit.amounts (Fin s) (Fin d) nbi)
     <=n Fin (s + d)
  /\ Fin 0 <=n SmartSplit.Locals.effectivePersonalRate
                 (SmartSplit.amounts (Fin s) (Fin d) nbi)
  /\ SmartSplit.Locals.effectivePersonalRate
       (SmartSplit.amounts (Fin s) (Fin d) nbi) <=n Fin 57.14
  /\ (s + d == 0 ->
      SmartSplit.Locals.effectivePersonalRate
        (SmartSplit.amounts (Fin s) (Fin d) nbi) = Fin 0
      /\ SmartSplit.effectiveTaxRate
           (SmartSplit.calculateSmartSplitStrategy (Fin s) (Fin d) nbi)
         = "0.0%"%string).
Proof.
  intros Hs Hd.
  destruct (split_bounds s d nbi Hs Hd) as (Hcash0 & Hcash1 & Hrate0 & Hrate1).
  repeat (split; [assumption |]).
  intros Hnone.
  assert (Hzero : SmartSplit.Locals.effectivePersonalRate
                    (SmartSplit.amounts (Fin s) (Fin d) nbi) = Fin 0).
  { unfold_split.
    change ((Fin s + Fin d)%num >? Fin 0)%num with (negb (Qle_bool (s + d) 0)).
    assert (Qle_bool (s + d) 0 = true) as -> by (apply Qle_bool_iff; lra).
    reflexivity. }
  split; [exact Hzero |].
  unfold SmartSplit.calculateSmartSplitStrategy.
  cbn [SmartSplit.effectiveTaxRate]. rewrite Hzero. reflexivity.
Qed.

Lemma smartSplit_net_cash_and_rate_witness :
  (Fin 0 <=n SmartSplit.Locals.netCash
               (SmartSplit.amounts (Fin 65000) (Fin 35000) (Fin 140000))
   /\ SmartSplit.Locals.netCash
        (SmartSplit.amounts (Fin 65000) (Fin 35000) (Fin 140000))
      <=n Fin (65000 + 35000)
   /\ Fin 0 <=n SmartSplit.Locals.effectivePersonalRate
                  (SmartSplit.amounts (Fin 65000) (Fin 35000) (Fin 140000))
   /\ SmartSplit.Locals.effectivePersonalRate
        (SmartSplit.amounts (Fin 65000) (Fin 35000) (Fin 140000)) <=n Fin 57.14)
  /\ (SmartSplit.Locals.effectivePersonalRate
        (SmartSplit.amounts (Fin 0) (Fin 0) (Fin 140000)) = Fin 0
      /\ SmartSplit.effectiveTaxRate
           (SmartSplit.calculateSmartSplitStrategy (Fin 0) (Fin 0) (Fin 140000))
         = "0.0%"%string).
Proof.
  split.
  - destruct (smartSplit_net_cash_and_rate 65000 35000 (Fin 140000))
      as (H1 & H2 & H3 & H4 & _); [discriminate | discriminate |].
    repeat split; assumption.
  - apply (smartSplit_net_cash_and_rate 0 0 (Fin 140000));
      [discriminate | discriminate | reflexivity].
Defined.

(** X6.  Withdrawing an amount as dividend only never leaves less cash than
    withdrawing it as salary only: the "100% Dividend" row has at least the
    net cash of the "100% Salary" row, and so has the net income
    it reports. *)
Theorem dividend_only_nets_at_least_salary_only (w : Q) (nbi : number) :
  0 <= w ->
  SmartSplit.Locals.netCash (SmartSplit.amounts (Fin w) (Fin 0) nbi)
  <=n SmartSplit.Locals.netCash (SmartSplit.amounts (Fin 0) (Fin w) nbi)
  /\ cashOf (SmartSplit.netIncome
               (SmartSplit.calculateSmartSplitStrategy (Fin w) (Fin 0) nbi))
     <=n cashOf (SmartSplit.netIncome
                   (SmartSplit.calculateSmartSplitStrategy (Fin 0) (Fin w) nbi)).
Proof.
  intros Hw.
  assert (Hq : w + 0 - burdenOf w 0 <= 0 + w - burdenOf 0 w).
  { unfold burdenOf.
    destruct (personal_increment w (w + 0.15 * w) Hw ltac:(lra)) as [_ Hhi].
    destruct (personal_increment 0 (0 + (w + w * 0.15)) ltac:(lra) ltac:(lra))
      as [Hlo0 _].
    destruct (personal_increment w (w + (0 + 0 * 0.15)) Hw ltac:(lra)) as [Hz _].
    rewrite (walkSpec_compat personalBands (w + 0.15 * w) (0 + (w + w * 0.15)))
      in Hhi by ring.
    rewrite (Q.max_l (walkSpec personalBands (w + (0 + 0 * 0.15))
                      - walkSpec personalBands w
                      - ((0 + 0 * 0.15) * 0.090301 + (0 + 0 * 0.15) * 0.029863)) 0)
      by lra.
    rewrite (Q.max_l (walkSpec personalBands (0 + (w + w * 0.15))
                      - walkSpec personalBands 0
                      - ((w + w * 0.15) * 0.090301 + (w + w * 0.15) * 0.029863)) 0)
      by lra.
    pose proof (cpp_within_salary w Hw) as Hcpp.
    pose proof (cpp_within_salary 0 ltac:(lra)) as Hcpp0.
    assert (0 <= Qmin w 63200) by (apply Q.min_glb; lra).
    assert (Qmin 0 63200 <= 0) by apply Q.le_min_l.
    rewrite (walkSpec_compat personalBands (w + (0 + 0 * 0.15)) w) in * by ring.
    lra. }
  destruct (numeq_Fin_inv _ _ (netCash_value w 0 nbi)) as (a & Ha & Hqa).
  destruct (numeq_Fin_inv _ _ (netCash_value 0 w nbi)) as (b & Hb & Hqb).
  split.
  - rewrite Ha, Hb. apply numle_Fin. lra.
  - unfold SmartSplit.calculateSmartSplitStrategy. cbn [SmartSplit.netIncome].
    rewrite Ha, Hb.
    eapply numle_numeq_l; [apply cashOf_roundedDollars |].
    eapply numle_numeq_r; [apply cashOf_roundedDollars |].
    apply round_mono. lra.
Qed.

Lemma dividend_only_nets_at_least_salary_only_witness :
  SmartSplit.Locals.netCash (SmartSplit.amounts (Fin 100000) (Fin 0) (Fin 140000))
  <=n SmartSplit.Locals.netCash (SmartSplit.amounts (Fin 0) (Fin 100000) (Fin 140000))
  /\ cashOf (SmartSplit.netIncome
               (SmartSplit.calculateSmartSplitStrategy
                  (Fin 100000) (Fin 0) (Fin 140000)))
     <=n cashOf (SmartSplit.netIncome
                   (SmartSplit.calculateSmartSplitStrategy
                      (Fin 0) (Fin 100000) (Fin 140000))).
Proof.
  apply (dividend_only_nets_at_least_salary_only 100000 (Fin 140000)).
  discriminate.
Defined.

(** ** What the split rows withdraw *)

Lemma round_value (q : Q) :
  Math.round (Fin q) = Fin (inject_Z (Qfloor (q + (1 # 2)))).
Proof. reflexivity. Qed.

(** Two amounts that add up to a whole number round to that number or to
    one more. *)
Lemma Qfloor_half_pair (a b : Q) (w : Z) :
  a + b == inject_Z w ->
  (Qfloor (a + (1 # 2)) + Qfloor (b + (1 # 2)) = w
   \/ Qfloor (a + (1 # 2)) + Qfloor (b + (1 # 2)) = w + 1)%Z.
Proof.
  intros Hab.
  pose proof (Qfloor_le (a + (1 # 2))) as Ha1.
  pose proof (Qlt_floor (a + (1 # 2))) as Ha2.
  pose proof (Qfloor_le (b + (1 # 2))) as Hb1.
  pose proof (Qlt_floor (b + (1 # 2))) as Hb2.
  rewrite inject_Z_plus in Ha2, Hb2.
  assert (inject_Z (Qfloor (a + (1 # 2)) + Qfloor (b + (1 # 2)))
          <= inject_Z (w + 1)) as Hle
      by (rewrite !inject_Z_plus; change (inject_Z 1) with 1 in *; lra).
  assert (inject_Z (w - 1)
          < inject_Z (Qfloor (a + (1 # 2)) + Qfloor (b + (1 # 2)))) as Hlt.
  { unfold Z.sub. rewrite !inject_Z_plus.
    change (inject_Z (- (1))) with (- (1)). change (inject_Z 1) with 1 in *. lra. }
  rewrite <- Zle_Qle in Hle. rewrite <- Zlt_Qlt in Hlt. lia.
Qed.

Lemma Qfloor_half_of (k : Z) :
  (Qfloor (inject_Z k * 0.5 + (1 # 2)) + Qfloor (inject_Z k * 0.5 + (1 # 2))
   = k + k mod 2)%Z.
Proof.
  assert (inject_Z k * 0.5 + (1 # 2) == (k + 1) # 2) as ->.
  { unfold inject_Z, Qmult, Qplus, Qeq. simpl. ring. }
  unfold Qfloor.
  pose proof (Z.div_mod (k + 1) 2 ltac:(lia)).
  pose proof (Z.mod_pos_bound (k + 1) 2 ltac:(lia)).
  pose proof (Z.div_mod k 2 ltac:(lia)).
  pose proof (Z.mod_pos_bound k 2 ltac:(lia)).
  lia.
Qed.

Lemma cash_of_rounded_pair (a b : Q) :
  (cashOf (dollars (Math.round (Fin a))) + cashOf (dollars (Math.round (Fin b))))%num
  =n= Fin (inject_Z (Qfloor (a + (1 # 2)) + Qfloor (b + (1 # 2)))).
Proof.
  destruct (numeq_Fin_inv _ _ (cashOf_roundedDollars a)) as (x & Hx & Hqx).
  destruct (numeq_Fin_inv _ _ (cashOf_roundedDollars b)) as (y & Hy & Hqy).
  unfold roundedDollars in Hx, Hy. rewrite Hx, Hy. simpl.
  rewrite Hqx, Hqy, inject_Z_plus. reflexivity.
Qed.

(** X7.  For a withdrawal of a whole number of dollars [k], the salary and
    the dividend of the 50/50 row, each [Math.round(k * 0.5)], add up to
    [k] when [k] is even and to [k + 1] when it is odd; those of the 65/35
    row add up to [k] or to [k + 1]. *)
Theorem split_rows_withdraw_up_to_one_dollar_more (k : Z) (nbi : number) :
  exists salaryOnly dividendOnly half mix,
    SmartSplit.strategies (Fin (inject_Z k)) nbi
    = [salaryOnly; dividendOnly; half; mix]
    /\ SmartSplit.strategy half = "50% Salary / 50% Dividend"%string
    /\ SmartSplit.strategy mix = "Optimal Mix (65% Salary / 35% Dividend)"%string
    /\ (cashOf (SmartSplit.salary (SmartSplit.result half))
        + cashOf (SmartSplit.dividends (SmartSplit.result half)))%num
       =n= Fin (inject_Z (k + k mod 2))
    /\ ((cashOf (SmartSplit.salary (SmartSplit.result mix))
         + cashOf (SmartSplit.dividends (SmartSplit.result mix)))%num
        =n= Fin (inject_Z k)
        \/ (cashOf (SmartSplit.salary (SmartSplit.result mix))
            + cashOf (SmartSplit.dividends (SmartSplit.result mix)))%num
           =n= Fin (inject_Z (k + 1))).
Proof.
  do 4 eexists. split; [reflexivity |].
  split; [reflexivity |]. split; [reflexivity |].
  cbn [SmartSplit.result SmartSplit.calculateSmartSplitStrategy
         SmartSplit.salary SmartSplit.dividends Number.mul].
  split.
  - eapply numeq_trans; [apply cash_of_rounded_pair |].
    unfold numeq. now rewrite Qfloor_half_of.
  - destruct (Qfloor_half_pair (inject_Z k * 0.65) (inject_Z k * 0.35) k
                ltac:(ring)) as [H | H];
      [left | right];
      (eapply numeq_trans; [apply cash_of_rounded_pair |]);
      unfold numeq; now rewrite H.
Qed.

Example half_split_of_101 :
  map (fun row => (SmartSplit.salary (SmartSplit.result row),
                   SmartSplit.dividends (SmartSplit.result row)))
      (SmartSplit.strategies (Fin 101) (Fin 1000))
  = [ ("$101", "$0"); ("$0", "$101"); ("$51", "$51"); ("$66", "$35") ]%string.
Proof. vm_compute. reflexivity. Qed.

(** * Further properties of the investment comparator *)

(** X8.  What a cash field shows reads back as the amount rounded to whole
    dollars; a field built from [NaN] or an infinity reads back as [NaN]. *)
Theorem cash_field_reads_back (x : number) :
  cashOf (roundedDollars x)
  =n= match x with
      | Fin q => Fin (inject_Z (Qfloor (q + (1 # 2))))
      | _ => NaN
      end.
Proof.
  destruct x as [q | | |].
  - eapply numeq_trans; [apply cashOf_roundedDollars |]. apply numeq_refl.
  - vm_compute. exact I.
  - vm_compute. exact I.
  - vm_compute. exact I.
Qed.

(** ** Reading the timeline *)

Lemma String_replace_step (c : ascii) (rest pattern replacement : string) :
  String_replace (String c rest) pattern replacement
  = if String.prefix pattern (String c rest) then
      (replacement ++
         substring (String.length pattern)
           (String.length (String c rest) - String.length pattern)
           (String c rest))%string
    else String c (String_replace rest pattern replacement).
Proof. reflexivity. Qed.

Lemma String_replace_years (ds : list ascii) :
  Forall plainDigit ds ->
  String_replace (string_of_list_ascii ds ++ " years") " years" ""
  = string_of_list_ascii ds.
Proof.
  induction 1 as [| c ds (_ & Hw & _) _ IH]; [reflexivity |].
  cbn [string_of_list_ascii append]. rewrite String_replace_step.
  assert (String.prefix " years" (String c (string_of_list_ascii ds ++ " years"))
          = false) as ->.
  { cbn [String.prefix].
    destruct (ascii_dec " " c) as [<- | _]; [discriminate Hw | reflexivity]. }
  now rewrite IH.
Qed.

Lemma digit_not_hex_mark (c : ascii) :
  isDigit c = true -> Ascii.eqb c "x" || Ascii.eqb c "X" = false.
Proof.
  intros H.
  destruct (Ascii.eqb_spec c "x") as [-> | _]; [discriminate H |].
  destruct (Ascii.eqb_spec c "X") as [-> | _]; [discriminate H | reflexivity].
Qed.

Lemma parseInt_digits (ds : list ascii) (n : Z) (k : nat) :
  readDigits ds 0%Z 0%nat = (n, S k, []) ->
  Forall plainDigit ds ->
  parseInt (string_of_list_ascii ds) = Some n.
Proof.
  intros Hread Hplain.
  destruct ds as [| c rest]; [discriminate Hread |].
  inversion Hplain as [| ? ? (Hd & Hw & _ & _ & Hminus & Hplus & _) Hrest]; subst.
  unfold parseInt. rewrite list_ascii_of_string_of_list_ascii.
  assert (trimStart (c :: rest) = c :: rest) as -> by (simpl; now rewrite Hw).
  assert (readSign (c :: rest) = (false, c :: rest)) as ->
      by (simpl; now rewrite Hminus, Hplus).
  cbv iota beta.
  destruct rest as [| x rest'].
  - rewrite Hread. reflexivity.
  - inversion Hrest as [| ? ? (Hdx & _) _]; subst.
    rewrite (digit_not_hex_mark x Hdx), andb_false_r, Hread. reflexivity.
Qed.

(** X9.  A timeline written as a non-negative whole number followed by
    [" years"] is read as that number. *)
Theorem timeline_reads_back (n : Z) :
  (0 <= n)%Z ->
  parseInt (String_replace (string_of_list_ascii (digits n) ++ " years") " years" "")
  = Some n.
Proof.
  intros Hn.
  rewrite String_replace_years by apply digits_plain.
  destruct (readDigits_digits n Hn) as (k & Hk).
  exact (parseInt_digits _ _ _ Hk (digits_plain n)).
Qed.

Lemma timeline_reads_back_witness :
  parseInt (String_replace (string_of_list_ascii (digits 25) ++ " years") " years" "")
  = Some 25%Z.
Proof. apply (timeline_reads_back 25). discriminate. Defined.

(** ** The corporate vehicle *)

(** X10.  For a non-negative amount and horizon the gains of the corporate
    vehicle are not negative and the cap on the dividend refund is never
    reached: the refund is the whole refundable part, and the net
    corporate tax is 9.75% of the gains. *)
Theorem corporate_refund_cap_not_reached
  (input : Investment.Input) (amount : Q) (years : Z) :
  Investment.investmentAmount input = Fin amount -> 0 <= amount ->
  parseInt (String_replace (Investment.timeline input) " years" "") = Some years ->
  (0 <= years)%Z ->
  Fin 0 <=n Investment.Locals.corpGains (Investment.amounts input)
  /\ Investment.Locals.netCorpTax (Investment.amounts input)
     =n= (Investment.Locals.corpGains (Investment.amounts input) * Fin 0.0975)%num.
Proof.
  intros Ha Hamount Hy Hyears.
  unfold Investment.amounts.
  cbn [Investment.Locals.corpGains Investment.Locals.netCorpTax].
  rewrite Ha, Hy.
  change (Math.pow 1.07 (Some years)) with (Fin (1.07 ^ years)).
  pose proof (Qpower_1_le 1.07 years ltac:(lra) Hyears) as Hp.
  set (p := 1.07 ^ years) in *.
  prod_nonneg amount (p - 1). prod_nonneg amount p.
  split.
  - eapply numle_numeq; [apply Fin_numeq | finite_value; reflexivity | lra].
  - eapply numeq_trans; [solve [repeat finite_step] |].
    apply numeq_sym. finite_value.
    rewrite Q.min_l by lra. ring.
Qed.

Lemma corporate_refund_cap_not_reached_witness :
  Fin 0 <=n Investment.Locals.corpGains
              (Investment.amounts
                 {| Investment.investmentAmount := Fin 100000;
                    Investment.rrspRoom := Fin 30000;
                    Investment.currentIncomeLevel := "$100-200K";
                    Investment.withdrawalIncomeLevel := "$50-100K";
                    Investment.timeline := "10 years" |})
  /\ Investment.Locals.netCorpTax
       (Investment.amounts
          {| Investment.investmentAmount := Fin 100000;
             Investment.rrspRoom := Fin 30000;
             Investment.currentIncomeLevel := "$100-200K";
             Investment.withdrawalIncomeLevel := "$50-100K";
             Investment.timeline := "10 years" |})
     =n= (Investment.Locals.corpGains
            (Investment.amounts
               {| Investment.investmentAmount := Fin 100000;
                  Investment.rrspRoom := Fin 30000;
                  Investment.currentIncomeLevel := "$100-200K";
                  Investment.withdrawalIncomeLevel := "$50-100K";
                  Investment.timeline := "10 years" |}) * Fin 0.0975)%num.
Proof.
  apply (corporate_refund_cap_not_reached
           {| Investment.investmentAmount := Fin 100000;
              Investment.rrspRoom := Fin 30000;
              Investment.currentIncomeLevel := "$100-200K";
              Investment.withdrawalIncomeLevel := "$50-100K";
              Investment.timeline := "10 years" |} 100000 10%Z);
    first [reflexivity | discriminate].
Defined.

(** ** The order of the ranking *)

Section SortedInput.

Context {A : Type} (comparefn : A -> A -> number) (key : A -> Q) (good : A -> Prop).
Hypothesis comparefn_key :
  forall a b, good a -> good b -> comparefn a b =n= Fin (key b - key a).

(** An element that is not above any element of the list goes to its end. *)
Lemma insertSorted_last (x : A) (l : list A) :
  good x -> Forall good l -> Forall (fun e => key x <= key e) l ->
  Investment.insertSorted comparefn x l = l ++ [x].
Proof.
  intros Hx Hl Hle. induction l as [| e rest IH]; [reflexivity |].
  inversion Hl as [| ? ? Hge Hgrest]; subst.
  inversion Hle as [| ? ? Hxe Hrest]; subst.
  cbn [Investment.insertSorted app].
  destruct (numeq_Fin_inv _ _ (comparefn_key e x Hge Hx)) as (t & -> & Hq).
  unfold Number.gtb, Number.ltb.
  assert (Qle_bool t 0 = true) as -> by (apply Qle_bool_iff; lra).
  cbn [negb]. now rewrite IH.
Qed.

Lemma StronglySorted_app_head (R : A -> A -> Prop) (l : list A) (x : A) (tail : list A) :
  StronglySorted R (l ++ x :: tail) -> Forall (fun e => R e x) l.
Proof.
  induction l as [| e rest IH]; intros Hs; [constructor |].
  cbn [app] in Hs. inversion Hs as [| ? ? Hrest Hall]; subst.
  constructor; [| now apply IH].
  rewrite Forall_forall in Hall. apply Hall.
  apply in_or_app. right. now left.
Qed.

Lemma fold_insertSorted_sorted_input (l : list A) :
  forall sorted,
    Forall good (sorted ++ l) ->
    StronglySorted (descending key) (sorted ++ l) ->
    fold_left (fun sorted x => Investment.insertSorted comparefn x sorted) l sorted
    = sorted ++ l.
Proof.
  induction l as [| x l IH]; intros sorted Hgood Hs; cbn [fold_left].
  - now rewrite app_nil_r.
  - assert (Forall good sorted /\ good x) as [Hgs Hgx].
    { rewrite Forall_app in Hgood. destruct Hgood as [Hgs Hgl].
      inversion Hgl; subst. now split. }
    rewrite (insertSorted_last x sorted Hgx Hgs
               (StronglySorted_app_head _ _ _ _ Hs)).
    rewrite IH; rewrite <- app_assoc; auto.
Qed.

(** A list that is already in descending order of the key is returned as
    it is: elements with equal keys keep their order. *)
Lemma Array_sort_sorted_input (l : list A) :
  Forall good l -> StronglySorted (descending key) l ->
  Investment.Array_sort comparefn l = l.
Proof. intros Hg Hs. exact (fold_insertSorted_sorted_input l [] Hg Hs). Qed.

End SortedInput.

Lemma descending_cash (l : list Investment.Ranked) :
  Forall finiteCash l ->
  StronglySorted (fun a b => Investment.cash b <=n Investment.cash a) l
  <-> StronglySorted (descending cashKey) l.
Proof.
  intros Hfin.
  assert (Hrel : forall a b, finiteCash a -> finiteCash b ->
                   (Investment.cash b <=n Investment.cash a
                    <-> descending cashKey a b)).
  { intros a b (qa & Ha) (qb & Hb). unfold descending, cashKey.
    rewrite Ha, Hb. apply numle_Fin. }
  induction Hfin as [| a l Ha Hl IH]; [split; constructor |].
  split; intros Hs; inversion Hs as [| ? ? Hrest Hall]; subst;
    (constructor; [now apply IH |]);
    rewrite Forall_forall in *; intros b Hb; apply (Hrel a b Ha (Hl b Hb));
    now apply Hall.
Qed.

(** X11.  When the available strategies are already in descending order of
    the cash they show, the sort of the handler leaves them as computed:
    strategies that show the same cash keep their order. *)
Theorem ranking_keeps_computed_order (final : list Investment.Ranked) :
  Forall finiteCash (filter Investment.isAvailable final) ->
  StronglySorted (fun a b => Investment.cash b <=n Investment.cash a)
    (filter Investment.isAvailable final) ->
  Investment.availableStrategies final = filter Investment.isAvailable final.
Proof.
  intros Hfin Hs. unfold Investment.availableStrategies.
  apply (Array_sort_sorted_input Investment.byCashDescending cashKey finiteCash
           byCashDescending_key); [exact Hfin |].
  now apply descending_cash.
Qed.

Lemma ranking_keeps_computed_order_witness :
  Investment.availableStrategies
    (Investment.finalStrategies
       (Investment.calculateInvestmentStrategies
          {| Investment.investmentAmount := Fin 0;
             Investment.rrspRoom := Fin 1000;
             Investment.currentIncomeLevel := "$100-200K";
             Investment.withdrawalIncomeLevel := "$50-100K";
             Investment.timeline := "10 years" |}))
  = filter Investment.isAvailable
      (Investment.finalStrategies
         (Investment.calculateInvestmentStrategies
            {| Investment.investmentAmount := Fin 0;
               Investment.rrspRoom := Fin 1000;
               Investment.currentIncomeLevel := "$100-200K";
               Investment.withdrawalIncomeLevel := "$50-100K";
               Investment.timeline := "10 years" |})).
Proof.
  apply ranking_keeps_computed_order.
  - repeat constructor; eexists; vm_compute; reflexivity.
  - repeat constructor; vm_compute; reflexivity.
Defined.

Lemma addRecommendations_cash (l : list Investment.Ranked) :
  Forall2 (fun s s' => Investment.cash s' = Investment.cash s)
          l (Investment.addRecommendations l).
Proof.
  destruct l as [| first others]; [constructor |].
  cbn [Investment.addRecommendations]. constructor; [reflexivity |].
  induction others as [| e rest IH]; constructor; [reflexivity | exact IH].
Qed.

Lemma StronglySorted_same_cash (l l' : list Investment.Ranked) :
  Forall2 (fun s s' => Investment.cash s' = Investment.cash s) l l' ->
  StronglySorted (fun a b => Investment.cash b <=n Investment.cash a) l ->
  StronglySorted (fun a b => Investment.cash b <=n Investment.cash a) l'.
Proof.
  induction 1 as [| a a' l l' Ha Hl IH]; intros Hs; [constructor |].
  inversion Hs as [| ? ? Hrest Hall]; subst.
  constructor; [now apply IH |].
  clear IH Hs Hrest. induction Hl as [| b b' l l' Hb Hl IH]; [constructor |].
  inversion Hall; subst. constructor; [| now apply IH].
  now rewrite Ha, Hb.
Qed.

(** The ranked part of the response is in descending order of cash. *)
Lemma ranking_descending (available : list Investment.Ranked) :
  Forall finiteCash available ->
  StronglySorted (fun a b => Investment.cash b <=n Investment.cash a)
    (Investment.addRecommendations
       (Investment.Array_sort Investment.byCashDescending available)).
Proof.
  intros Hfin.
  apply (StronglySorted_same_cash _ _ (addRecommendations_cash _)).
  apply descending_cash.
  - exact (Permutation_Forall
             (Permutation_sym (Array_sort_perm Investment.byCashDescending available))
             Hfin).
  - now apply (Array_sort_sorted Investment.byCashDescending cashKey finiteCash
                 byCashDescending_key).
Qed.

(** X12.  With contribution room, all three vehicles are available: every
    entry of the response shows in [finalCashInPocket] the after-tax cash
    computed for its vehicle, rounded to whole dollars, and the response
    lists them in descending order of that cash: the second has no more
    than the first and the third no more than the second. *)
Theorem ranking_with_room_orders_all_three (input : Investment.Input) :
  validInvestmentInput input ->
  (Investment.rrspRoom input >? Fin 0)%num = true ->
  exists first second third,
    Investment.sortedStrategies input = [first; second; third]
    /\ Permutation (map Investment.entry [first; second; third])
                   (Investment.calculateInvestmentStrategies input)
    /\ Forall (fun s =>
                 Investment.finalCashInPocket (Investment.entry s)
                 <> "Not Available"%string
                 /\ Investment.finalCashInPocket (Investment.entry s)
                    = roundedDollars (computedFinalCash input (Investment.entry s))
                 /\ Investment.cash s
                    =n= Math.round (computedFinalCash input (Investment.entry s)))
              [first; second; third]
    /\ Math.round (computedFinalCash input (Investment.entry second))
       <=n Math.round (computedFinalCash input (Investment.entry first))
    /\ Math.round (computedFinalCash input (Investment.entry third))
       <=n Math.round (computedFinalCash input (Investment.entry second)).
Proof.
  intros (amount & room & years & Ha & Hr & Hy) Hgt.
  destruct (computed_entries_shown input amount room years Ha Hr Hy)
    as (Hc & Hp & Hrr).
  specialize (Hrr Hgt).
  unfold Investment.sortedStrategies, Investment.calculateInvestmentStrategies.
  set (a := Investment.amounts input) in *.
  set (c := Investment.corporateStrategy a) in *.
  set (p := Investment.personalStrategy a) in *.
  set (r := Investment.rrspStrategy input a) in *.
  cbv zeta.
  change (Investment.finalStrategies [c; p; r])
    with [Investment.finalStrategy c; Investment.finalStrategy p;
          Investment.finalStrategy r].
  pose proof (isAvailable_rounded c _ (proj1 Hc)) as Hac.
  pose proof (isAvailable_rounded p _ (proj1 Hp)) as Hap.
  pose proof (isAvailable_rounded r _ (proj1 Hrr)) as Har.
  pose proof (finiteCash_final c _ (proj1 Hc) (proj2 Hc)) as Hfc.
  pose proof (finiteCash_final p _ (proj1 Hp) (proj2 Hp)) as Hfp.
  pose proof (finiteCash_final r _ (proj1 Hrr) (proj2 Hrr)) as Hfr.
  unfold Investment.availableStrategies, Investment.unavailableStrategies.
  cbn [filter]. rewrite Hac, Hap, Har. cbn [negb map].
  rewrite app_nil_r.
  set (available := [Investment.finalStrategy c; Investment.finalStrategy p;
                     Investment.finalStrategy r]).
  assert (Hfin : Forall finiteCash available) by (repeat constructor; assumption).
  pose proof (ranking_descending available Hfin) as Hsorted.
  assert (Hperm : Permutation
                    (map Investment.entry
                       (Investment.addRecommendations
                          (Investment.Array_sort Investment.byCashDescending available)))
                    [c; p; r]).
  { rewrite entry_addRecommendations.
    exact (Permutation_map Investment.entry
             (Array_sort_perm Investment.byCashDescending available)). }
  assert (Hshown :
            Forall (fun s =>
                      Investment.finalCashInPocket (Investment.entry s)
                      = roundedDollars (computedFinalCash input (Investment.entry s))
                      /\ Number.isFinite
                           (computedFinalCash input (Investment.entry s)) = true)
                   (Investment.addRecommendations
                      (Investment.Array_sort Investment.byCashDescending available))).
  { apply (Forall_entry_perm
             (fun e => Investment.finalCashInPocket e
                       = roundedDollars (computedFinalCash input e)
                       /\ Number.isFinite (computedFinalCash input e) = true)
             available _).
    - exact Hperm.
    - subst available.
      repeat (apply Forall_cons; [assumption |]); apply Forall_nil. }
  pose proof (Permutation_length Hperm) as Hlen.
  destruct (Investment.addRecommendations
              (Investment.Array_sort Investment.byCashDescending available))
    as [| first [| second [| third [| extra rest]]]]; try discriminate Hlen.
  exists first, second, third.
  inversion Hshown as [| ? ? (Hs1 & Hx1) Hshown2]; subst.
  inversion Hshown2 as [| ? ? (Hs2 & Hx2) Hshown3]; subst.
  inversion Hshown3 as [| ? ? (Hs3 & Hx3) _]; subst.
  pose proof (cash_rounded first _ Hs1 Hx1) as Hcash1.
  pose proof (cash_rounded second _ Hs2 Hx2) as Hcash2.
  pose proof (cash_rounded third _ Hs3 Hx3) as Hcash3.
  split; [reflexivity |]. split; [exact Hperm |]. split.
  - repeat (apply Forall_cons;
            [split;
             [match goal with H : ?f = roundedDollars _ |- ?f <> _ =>
                rewrite H; intros Hna;
                match type of Hna with roundedDollars ?x = _ =>
                  pose proof (roundedDollars_available x) as Hne
                end;
                rewrite Hna in Hne; discriminate Hne
              end
             | split; assumption] |]).
    apply Forall_nil.
  - inversion Hsorted as [| ? ? Hrest Hall]; subst.
    inversion Hrest as [| ? ? _ Hall']; subst.
    inversion Hall as [| ? ? H21 _]; subst. inversion Hall' as [| ? ? H32 _]; subst.
    split.
    + exact (numle_compat _ _ _ _ Hcash2 Hcash1 H21).
    + exact (numle_compat _ _ _ _ Hcash3 Hcash2 H32).
Qed.

Lemma ranking_with_room_orders_all_three_witness :
  exists first second third,
    Investment.sortedStrategies sampleInput = [first; second; third]
    /\ Permutation (map Investment.entry [first; second; third])
                   (Investment.calculateInvestmentStrategies sampleInput)
    /\ Forall (fun s =>
                 Investment.finalCashInPocket (Investment.entry s)
                 <> "Not Available"%string
                 /\ Investment.finalCashInPocket (Investment.entry s)
                    = roundedDollars (computedFinalCash sampleInput (Investment.entry s))
                 /\ Investment.cash s
                    =n= Math.round (computedFinalCash sampleInput (Investment.entry s)))
              [first; second; third]
    /\ Math.round (computedFinalCash sampleInput (Investment.entry second))
       <=n Math.round (computedFinalCash sampleInput (Investment.entry first))
    /\ Math.round (computedFinalCash sampleInput (Investment.entry third))
       <=n Math.round (computedFinalCash sampleInput (Investment.entry second)).
Proof.
  apply (ranking_with_room_orders_all_three sampleInput).
  - exists 100000, 30000, 10%Z. repeat split; reflexivity.
  - reflexivity.
Defined.

(** ** Progressivity *)

(** At every income [x >= 0] there is a marginal rate [m]: the tax on [x]
    is at most [m * x] and every further dollar is taxed at [m] or more. *)
Lemma walkSpec_marginal (table : list Band) :
  Forall nonnegBand table -> ratesAscend table -> unboundedLast table ->
  forall lo, 0 <= lo -> Forall (fun b => lo <= pct b) table ->
  forall x, 0 <= x ->
  exists m, lo <= m
            /\ walkSpec table x <= m * x
            /\ forall y, x <= y -> m * (y - x) <= walkSpec table y - walkSpec table x.
Proof.
  induction table as [| b rest IH]; intros Hnn Hasc Hub lo Hlo Hrate x Hx;
    [destruct Hub |].
  inversion Hnn as [| ? ? Hb Hnn']; subst.
  inversion Hrate as [| ? ? Hp Hrate']; subst.
  destruct Hasc as [Hhead Hasc'].
  assert (Hall : Forall (fun b' => pct b <= pct b') (b :: rest))
    by (constructor; [lra | exact Hhead]).
  assert (Hpct : 0 <= pct b) by apply Hb.
  destruct (bandWidth b) as [w |] eqn:Ew.
  - destruct (Qlt_le_dec w x) as [Hlt | Hle].
    + cbn [unboundedLast] in Hub. rewrite Ew in Hub.
      assert (Hw : 0 <= w) by (destruct Hb as [_ Hw]; now rewrite Ew in Hw).
      destruct (IH Hnn' Hasc' Hub (pct b) Hpct Hhead (x - w) ltac:(lra))
        as (m & Hm & Hmx & Hmy).
      exists m. split; [lra |]. split.
      * rewrite (walkSpec_head_beyond b rest w x Ew Hw) by lra.
        prod_nonneg (m - pct b) w. lra.
      * intros y Hy.
        rewrite (walkSpec_head_beyond b rest w x Ew Hw) by lra.
        rewrite (walkSpec_head_beyond b rest w y Ew Hw) by lra.
        specialize (Hmy (y - w) ltac:(lra)). lra.
    + exists (pct b). split; [lra |]. split.
      * rewrite (walkSpec_head_within b rest x Hx) by (now rewrite Ew). lra.
      * intros y Hy.
        apply (walkSpec_increment_lower (pct b) (b :: rest)); auto.
  - exists (pct b). split; [lra |]. split.
    + rewrite (walkSpec_head_within b rest x Hx) by (now rewrite Ew). lra.
    + intros y Hy.
      apply (walkSpec_increment_lower (pct b) (b :: rest)); auto.
Qed.

Lemma personalBands_ascend : ratesAscend personalBands.
Proof.
  rewrite personalBands_table. cbn [ratesAscend pct].
  repeat split; repeat constructor; cbn; lra.
Qed.

(** X13.  The schedule is progressive: for incomes [0 <= x <= y] the average
    rate on [y] is at least the average rate on [x], that is
    [y * tax(x) <= x * tax(y)]. *)
Theorem calculatePersonalTax_progressive (x y : Q) :
  0 <= x -> x <= y ->
  (Fin y * calculatePersonalTax (Fin x))%num
  <=n (Fin x * calculatePersonalTax (Fin y))%num.
Proof.
  intros Hx Hxy.
  destruct personalBands_rates as (Hlo & _ & Hub).
  destruct (walkSpec_marginal personalBands personalBands_nonneg
              personalBands_ascend Hub 0.2005 ltac:(lra) Hlo x Hx)
    as (m & Hm & Hmx & Hmy).
  specialize (Hmy y Hxy).
  destruct (calculatePersonalTax_Fin x) as (tx & -> & Hqx).
  destruct (calculatePersonalTax_Fin y) as (ty & -> & Hqy).
  rewrite <- Hqx in *. rewrite <- Hqy in *.
  apply numle_Fin.
  prod_nonneg x (ty - tx - m * (y - x)).
  prod_nonneg (y - x) (m * x - tx).
  lra.
Qed.

Lemma calculatePersonalTax_progressive_witness :
  (Fin 90000 * calculatePersonalTax (Fin 40000))%num
  <=n (Fin 40000 * calculatePersonalTax (Fin 90000))%num.
Proof. apply (calculatePersonalTax_progressive 40000 90000); discriminate. Defined.

(** * The expense route *)

(** X14.  The home-office percentage of finite sizes is always a finite
    number: without a positive total size it is 0 and no division takes
    place, and an office that fits in the home gives a percentage between 0
    and 100. *)
Theorem homeOfficePercentage_guarded (office total : Q) :
  exists p,
    Expense.homeOfficePercentage (Fin office) (Fin total) = Fin p
    /\ (total <= 0 -> p == 0)
    /\ (0 < total -> p == office / total * 100)
    /\ (0 <= office -> office <= total -> 0 <= p <= 100).
Proof.
  unfold Expense.homeOfficePercentage, Number.gtb, Number.ltb.
  destruct (Qle_bool total 0) eqn:E; cbn [negb].
  - apply Qle_bool_iff in E. exists 0. repeat split; try lra.
  - apply Qle_bool_false in E. cbn [Number.div Number.mul].
    destruct (total ?= 0) eqn:C.
    + apply Qeq_alt in C. lra.
    + apply Qlt_alt in C. lra.
    + exists (office / total * 100). split; [reflexivity |].
      split; [lra |]. split; [reflexivity |].
      intros Ho Hot.
      assert (0 <= office / total) by (apply Qle_shift_div_l; lra).
      assert (office / total <= 1) by (apply Qle_shift_div_r; lra).
      lra.
Qed.

Lemma homeOfficePercentage_guarded_witness :
  exists p,
    Expense.homeOfficePercentage (Fin 150) (Fin 1200) = Fin p /\ 0 <= p <= 100.
Proof.
  destruct (homeOfficePercentage_guarded 150 1200) as (p & Hp & _ & _ & Hb).
  exists p. split; [exact Hp | apply Hb; discriminate].
Defined.

(** * The chat routes and the chat service *)

(** ** Titles *)

(** X15.  The title of a conversation has at most 53 code units; a message
    of at most 50 code units is its own title, and in any case the title
    begins like the message, for its first 50 code units. *)
Theorem conversationTitle_bounded (content : Chat.jsstring) :
  (List.length (Chat.conversationTitle content) <= 53)%nat
  /\ ((List.length content <= 50)%nat -> Chat.conversationTitle content = content)
  /\ firstn 50 (Chat.conversationTitle content) = firstn 50 content.
Proof.
  unfold Chat.conversationTitle.
  destruct (50 <? List.length content)%nat eqn:E.
  - apply Nat.ltb_lt in E. repeat split.
    + rewrite length_app, firstn_length_le by lia.
      change (List.length (Chat.units "...")) with 3%nat. lia.
    + intros H. lia.
    + rewrite firstn_app, firstn_firstn, firstn_length_le by lia.
      change (50 - 50)%nat with 0%nat. cbn [firstn Nat.min].
      now rewrite app_nil_r.
  - apply Nat.ltb_ge in E. split; [lia |]. split; [intros _ |]; reflexivity.
Qed.

Lemma conversationTitle_bounded_witness :
  (List.length (Chat.conversationTitle (Chat.units "Hello")) <= 53)%nat
  /\ Chat.conversationTitle (Chat.units "Hello") = Chat.units "Hello".
Proof.
  destruct (conversationTitle_bounded (Chat.units "Hello")) as (Hlen & Hshort & _).
  split; [exact Hlen | apply Hshort; vm_compute; lia].
Defined.

(** ** History *)

Lemma lastTen_length {A : Type} (l : list A) :
  List.length (Chat.lastTen l) = Nat.min 10 (List.length l).
Proof. unfold Chat.lastTen. rewrite length_skipn. lia. Qed.

(** X16.  The [messages] array that [analyzeQuery] builds from the history
    of the route is the system prompt, then the role and content of the
    last ten stored messages of the conversation (of all of them when there
    are fewer) in their order, then the query as a user message: at most
    twelve entries. *)
Theorem analysisMessages_window
  (query : Chat.jsstring) (messages : list Chat.Schema.Message) :
  exists older recent,
    messages = older ++ recent
    /\ List.length recent = Nat.min 10 (List.length messages)
    /\ Chat.analysisMessages query (Chat.conversationHistory messages)
       = {| Chat.role := Chat.units "system"; Chat.content := Chat.systemPrompt |}
         :: map (fun msg => {| Chat.role := Chat.Schema.role msg;
                               Chat.content := Chat.Schema.content msg |}) recent
         ++ [ {| Chat.role := Chat.units "user"; Chat.content := query |} ]
    /\ (List.length (Chat.analysisMessages query (Chat.conversationHistory messages))
        <= 12)%nat.
Proof.
  exists (firstn (List.length messages - 10) messages), (Chat.lastTen messages).
  split; [symmetry; apply firstn_skipn |].
  split; [apply lastTen_length |].
  split; [reflexivity |].
  unfold Chat.analysisMessages, Chat.conversationHistory.
  rewrite !length_app, length_map, lastTen_length. cbn [List.length]. lia.
Qed.

(** ** Errors *)

Lemma includes_cons (c : N) (s pattern : Chat.jsstring) :
  Chat.includes (c :: s) pattern
  = Chat.startsWithUnits pattern (c :: s) || Chat.includes s pattern.
Proof. reflexivity. Qed.

(** Putting [AI service error: ] in front of a message brings in neither
    [API key] nor [rate limit]. *)
Lemma service_prefix_includes (message pattern : Chat.jsstring) :
  pattern = Chat.units "API key" \/ pattern = Chat.units "rate limit" ->
  Chat.includes (Chat.units "AI service error: " ++ message) pattern
  = Chat.includes message pattern.
Proof.
  intros [-> | ->];
    unfold Chat.units; cbn [list_ascii_of_string map app];
    rewrite !includes_cons;
    cbn [Chat.startsWithUnits N_of_ascii N_of_digits N.eqb Pos.eqb N.add N.mul
         Pos.add Pos.mul Pos.succ andb orb];
    reflexivity.
Qed.

(** X17.  Whatever [analyzeQuery] catches, the error it throws is answered
    by [/api/analyze-query] with status 500, never 429: the service
    rewrites a rate-limit error to a message that starts with a capital
    letter, which the route's test for [rate limit] does not find, so the
    route sends the service's message back as it is. *)
Theorem service_errors_answered_500 (caught : option Chat.jsstring) :
  fst (Chat.queryErrorResponse (Chat.serviceError caught)) = 500%Z
  /\ (forall message,
        caught = Some message ->
        Chat.includes message (Chat.units "API key") = false ->
        Chat.includes message (Chat.units "rate limit") = true ->
        Chat.queryErrorResponse (Chat.serviceError caught)
        = (500%Z, Chat.units "Rate limit exceeded. Please try again in a moment.")).
Proof.
  split.
  - destruct caught as [message |]; [| vm_compute; reflexivity].
    unfold Chat.serviceError.
    destruct (Chat.includes message (Chat.units "API key")) eqn:Hkey;
      [vm_compute; reflexivity |].
    destruct (Chat.includes message (Chat.units "rate limit")) eqn:Hrate;
      [vm_compute; reflexivity |].
    destruct (Chat.includes message (Chat.units "model")) eqn:Hmodel;
      [vm_compute; reflexivity |].
    unfold Chat.queryErrorResponse.
    rewrite !service_prefix_includes by auto.
    now rewrite Hkey, Hrate.
  - intros message -> Hkey Hrate. unfold Chat.serviceError.
    rewrite Hkey, Hrate. vm_compute. reflexivity.
Qed.

Lemma service_errors_answered_500_witness :
  Chat.queryErrorResponse
    (Chat.serviceError (Some (Chat.units "429 rate limit reached for requests")))
  = (500%Z, Chat.units "Rate limit exceeded. Please try again in a moment.").
Proof.
  apply (proj2 (service_errors_answered_500
                  (Some (Chat.units "429 rate limit reached for requests")))
           (Chat.units "429 rate limit reached for requests"));
    reflexivity.
Defined.
